(** * ts-job-tracker: a shallow embedding of [src/index.ts]

  The program is a one-shot command line tool.  One run reads
  [jobs.json], performs one command and possibly rewrites the file.
  The embedding follows the source top to bottom:

  - JavaScript strings are sequences of UTF-16 code units ([list N]);
  - [JSON.stringify (_, null, 2)] and [JSON.parse] are modelled as a
    printer and a recursive-descent parser over a [json] value type;
  - console output, the backing file and [process.exit] are threaded
    through a small state-and-halt monad [Proc];
  - [main] is the source's [main], command by command. *)

From Stdlib Require Import NArith ZArith Ascii String DecimalString
  DecimalPos DecimalN.
From stdpp Require Import base tactics option list numbers.

Local Open Scope N_scope.

(** ** JavaScript strings *)

Module JsString.

(** A string is a list of UTF-16 code units. *)
Abbreviation jsstring := (list N).

Definition js (s : string) : jsstring :=
  N_of_ascii <$> list_ascii_of_string s.

(** [String.prototype.trim] strips WhiteSpace and LineTerminator code
    points from both ends (ECMA-262, TrimString). *)
Definition isWhiteSpace (c : N) : bool :=
  bool_decide (c ∈ [9; 10; 11; 12; 13; 32; 160; 5760;
                    8192; 8193; 8194; 8195; 8196; 8197; 8198; 8199;
                    8200; 8201; 8202; 8232; 8233; 8239; 8287;
                    12288; 65279]).

Fixpoint trimStart (s : jsstring) : jsstring :=
  match s with
  | c :: rest => if isWhiteSpace c then trimStart rest else s
  | [] => []
  end.

Definition trimEnd (s : jsstring) : jsstring :=
  reverse (trimStart (reverse s)).

Definition trim (s : jsstring) : jsstring := trimEnd (trimStart s).

(** [Array.prototype.join] on an array of strings. *)
Fixpoint join (sep : jsstring) (parts : list jsstring) : jsstring :=
  match parts with
  | [] => []
  | [p] => p
  | p :: rest => p ++ sep ++ join sep rest
  end.

(** Decimal rendering of a non-negative integer, as a template literal
    renders [Date.now()]. *)
Definition decimal (n : N) : jsstring :=
  js (NilEmpty.string_of_uint (N.to_uint n)).

End JsString.
Export JsString.

(** ** JSON text *)

Module Json.

#[local] Unset Elimination Schemes.
Inductive json :=
| JNull
| JBool (b : bool)
| JNumber (lexeme : jsstring)
| JString (s : jsstring)
| JArray (elements : list json)
| JObject (members : list (jsstring * json)).
#[local] Set Elimination Schemes.

(** *** [JSON.stringify (value, null, 2)] *)

Definition hexDigit (d : N) : N := if d <? 10 then 48 + d else 87 + d.

(** The escape [\uXXXX], lower-case hexadecimal. *)
Definition unicodeEscape (c : N) : jsstring :=
  [92; 117; hexDigit (c / 4096 mod 16); hexDigit (c / 256 mod 16);
   hexDigit (c / 16 mod 16); hexDigit (c mod 16)].

Definition isHighSurrogate (c : N) : bool := (55296 <=? c) && (c <=? 56319).
Definition isLowSurrogate (c : N) : bool := (56320 <=? c) && (c <=? 57343).

(** One code unit that is not part of a surrogate pair. *)
Definition quoteUnit (c : N) : jsstring :=
  if c =? 8 then [92; 98]
  else if c =? 9 then [92; 116]
  else if c =? 10 then [92; 110]
  else if c =? 12 then [92; 102]
  else if c =? 13 then [92; 114]
  else if c =? 34 then [92; 34]
  else if c =? 92 then [92; 92]
  else if (c <? 32) || isHighSurrogate c || isLowSurrogate c
       then unicodeEscape c
  else [c].

(** QuoteJSONString without the surrounding quotes: a well-formed
    surrogate pair is copied, a lone surrogate is escaped. *)
Fixpoint quoteBody (s : jsstring) : jsstring :=
  match s with
  | [] => []
  | c :: rest =>
      match rest with
      | d :: rest' =>
          if isHighSurrogate c && isLowSurrogate d
          then c :: d :: quoteBody rest'
          else quoteUnit c ++ quoteBody rest
      | [] => quoteUnit c
      end
  end.

Definition quote (s : jsstring) : jsstring := 34 :: quoteBody s ++ [34].

Definition newline : jsstring := [10].
Definition gap : jsstring := [32; 32].

Fixpoint stringify (indent : jsstring) (v : json) : jsstring :=
  match v with
  | JNull => js "null"
  | JBool true => js "true"
  | JBool false => js "false"
  | JNumber lexeme => lexeme
  | JString s => quote s
  | JArray [] => js "[]"
  | JArray elements =>
      let stepback := indent in
      let indent := indent ++ gap in
      js "[" ++ newline ++ indent
        ++ join (js "," ++ newline ++ indent)
                (map (stringify indent) elements)
        ++ newline ++ stepback ++ js "]"
  | JObject [] => js "{}"
  | JObject members =>
      let stepback := indent in
      let indent := indent ++ gap in
      js "{" ++ newline ++ indent
        ++ join (js "," ++ newline ++ indent)
                (map (fun m => quote (fst m) ++ js ": " ++ stringify indent (snd m))
                     members)
        ++ newline ++ stepback ++ js "}"
  end.

Definition JSON_stringify (v : json) : jsstring := stringify [] v.

(** *** [JSON.parse] *)

(** JSON whitespace: space, tab, line feed, carriage return. *)
Definition isJsonSpace (c : N) : bool :=
  (c =? 32) || (c =? 9) || (c =? 10) || (c =? 13).

Fixpoint skipSpace (s : jsstring) : jsstring :=
  match s with
  | c :: rest => if isJsonSpace c then skipSpace rest else s
  | [] => []
  end.

Definition hexValue (c : N) : option N :=
  if (48 <=? c) && (c <=? 57) then Some (c - 48)
  else if (97 <=? c) && (c <=? 102) then Some (c - 87)
  else if (65 <=? c) && (c <=? 70) then Some (c - 55)
  else None.

(** The characters of a string literal after its opening quote, up to
    and including the closing quote. *)
Fixpoint parseStringBody (s : jsstring) : option (jsstring * jsstring) :=
  match s with
  | [] => None
  | c :: rest =>
      if c =? 34 then Some ([], rest)
      else if c =? 92 then
        match rest with
        | [] => None
        | e :: rest1 =>
            if e =? 117 then
              match rest1 with
              | h1 :: h2 :: h3 :: h4 :: rest2 =>
                  a ← hexValue h1; b ← hexValue h2;
                  c ← hexValue h3; d ← hexValue h4;
                  '(body, out) ← parseStringBody rest2;
                  Some ((a * 4096 + b * 256 + c * 16 + d) :: body, out)
              | _ => None
              end
            else
              u ← (if e =? 34 then Some 34
                   else if e =? 92 then Some 92
                   else if e =? 47 then Some 47
                   else if e =? 98 then Some 8
                   else if e =? 102 then Some 12
                   else if e =? 110 then Some 10
                   else if e =? 114 then Some 13
                   else if e =? 116 then Some 9
                   else None);
              '(body, out) ← parseStringBody rest1;
              Some (u :: body, out)
        end
      else if c <? 32 then None
      else '(body, out) ← parseStringBody rest; Some (c :: body, out)
  end.

Definition isDigit (c : N) : bool := (48 <=? c) && (c <=? 57).

Fixpoint spanDigits (s : jsstring) : jsstring * jsstring :=
  match s with
  | c :: rest =>
      if isDigit c then let '(ds, out) := spanDigits rest in (c :: ds, out)
      else ([], s)
  | [] => ([], [])
  end.

(** A number token: [-? int frac? exp?]; the value is kept as its lexeme. *)
Definition parseSign (s : jsstring) : jsstring * jsstring :=
  match s with
  | c :: t => if c =? 45 then ([c], t) else ([], s)
  | [] => ([], s)
  end.

Definition parseFraction (s : jsstring) : option (jsstring * jsstring) :=
  match s with
  | c :: t =>
      if c =? 46 then
        let '(ds, out) := spanDigits t in
        if bool_decide (ds = []) then None else Some (c :: ds, out)
      else Some ([], s)
  | [] => Some ([], s)
  end.

Definition parseExponent (s : jsstring) : option (jsstring * jsstring) :=
  match s with
  | e :: t =>
      if (e =? 101) || (e =? 69) then
        let '(sign, t') :=
          match t with
          | g :: u => if (g =? 43) || (g =? 45) then ([g], u) else ([], t)
          | [] => ([], t)
          end in
        let '(ds, out) := spanDigits t' in
        if bool_decide (ds = []) then None else Some (e :: sign ++ ds, out)
      else Some ([], s)
  | [] => Some ([], s)
  end.

Definition parseNumber (s : jsstring) : option (jsstring * jsstring) :=
  let '(sign, s1) := parseSign s in
  let '(int, s2) := spanDigits s1 in
  match int with
  | [] => None
  | d :: more =>
      if (d =? 48) && negb (bool_decide (more = [])) then None
      else
        '(frac, s3) ← parseFraction s2;
        '(exp, s4) ← parseExponent s3;
        Some (sign ++ int ++ frac ++ exp, s4)
  end.

Fixpoint stripPrefix (p s : jsstring) : option jsstring :=
  match p, s with
  | [], _ => Some s
  | a :: p', b :: s' => if a =? b then stripPrefix p' s' else None
  | _ :: _, [] => None
  end.

(** One JSON value, with the text that follows it.  [fuel] bounds the
    number of nested calls; [JSON_parse] supplies enough of it. *)
Fixpoint parseValue (fuel : nat) (s : jsstring) : option (json * jsstring) :=
  match fuel with
  | O => None
  | S fuel =>
      match skipSpace s with
      | [] => None
      | c :: rest =>
          if c =? 34 then
            '(str, out) ← parseStringBody rest; Some (JString str, out)
          else if c =? 91 then
            match skipSpace rest with
            | d :: out =>
                if d =? 93 then Some (JArray [], out)
                else '(l, out') ← parseElements fuel rest; Some (JArray l, out')
            | [] => None
            end
          else if c =? 123 then
            match skipSpace rest with
            | d :: out =>
                if d =? 125 then Some (JObject [], out)
                else '(l, out') ← parseMembers fuel rest; Some (JObject l, out')
            | [] => None
            end
          else if c =? 116 then
            out ← stripPrefix (js "rue") rest; Some (JBool true, out)
          else if c =? 102 then
            out ← stripPrefix (js "alse") rest; Some (JBool false, out)
          else if c =? 110 then
            out ← stripPrefix (js "ull") rest; Some (JNull, out)
          else
            '(lexeme, out) ← parseNumber (c :: rest); Some (JNumber lexeme, out)
      end
  end
with parseElements (fuel : nat) (s : jsstring) : option (list json * jsstring) :=
  match fuel with
  | O => None
  | S fuel =>
      '(v, out) ← parseValue fuel s;
      match skipSpace out with
      | d :: out' =>
          if d =? 44 then
            '(l, out'') ← parseElements fuel out'; Some (v :: l, out'')
          else if d =? 93 then Some ([v], out')
          else None
      | [] => None
      end
  end
with parseMembers (fuel : nat) (s : jsstring)
     : option (list (jsstring * json) * jsstring) :=
  match fuel with
  | O => None
  | S fuel =>
      match skipSpace s with
      | q :: s1 =>
          if q =? 34 then
            '(key, s2) ← parseStringBody s1;
            match skipSpace s2 with
            | colon :: s3 =>
                if colon =? 58 then
                  '(v, out) ← parseValue fuel s3;
                  match skipSpace out with
                  | d :: out' =>
                      if d =? 44 then
                        '(l, out'') ← parseMembers fuel out';
                        Some ((key, v) :: l, out'')
                      else if d =? 125 then Some ([(key, v)], out')
                      else None
                  | [] => None
                  end
                else None
            | [] => None
            end
          else None
      | [] => None
      end
  end.

(** [None] is the [SyntaxError] that [JSON.parse] throws. *)
Definition JSON_parse (text : jsstring) : option json :=
  '(v, out) ← parseValue (2 * length text + 2) text;
  match skipSpace out with
  | [] => Some v
  | _ :: _ => None
  end.

End Json.
Export Json.

(** ** Data model *)

Module Model.

(** [type JobStatus = "saved" | "applied" | "interview" | "offer" | "rejected"] *)
Inductive JobStatus := saved | applied | interview | offer | rejected.

#[global] Instance JobStatus_eq_dec : EqDecision JobStatus.
Proof. solve_decision. Defined.

(** The string a status is at run time and in the file. *)
Definition statusText (s : JobStatus) : jsstring :=
  match s with
  | saved => js "saved"
  | applied => js "applied"
  | interview => js "interview"
  | offer => js "offer"
  | rejected => js "rejected"
  end.

(** [interface JobApplication]; [notes?] is [None] when the property is
    undefined. *)
Record JobApplication := {
  id : jsstring;
  company : jsstring;
  role : jsstring;
  status : JobStatus;
  createdAt : jsstring;
  notes : option jsstring
}.

#[global] Instance JobApplication_eq_dec : EqDecision JobApplication.
Proof. solve_decision. Defined.

(** [job.status = s] *)
Definition setStatus (s : JobStatus) (j : JobApplication) : JobApplication :=
  {| id := id j; company := company j; role := role j; status := s;
     createdAt := createdAt j; notes := notes j |}.

(** [isStatus] is a type guard: on success the value is narrowed to
    [JobStatus], which the embedding returns. *)
Definition isStatus (value : jsstring) : option JobStatus :=
  List.find (fun s => bool_decide (statusText s = value))
            [saved; applied; interview; offer; rejected].

(** The JavaScript object of an entry, property by property in creation
    order; an undefined [notes] is not serialised. *)
Definition jobToJSON (j : JobApplication) : json :=
  JObject ([ (js "id", JString (id j));
             (js "company", JString (company j));
             (js "role", JString (role j));
             (js "status", JString (statusText (status j)));
             (js "createdAt", JString (createdAt j)) ]
           ++ match notes j with
              | Some n => [ (js "notes", JString n) ]
              | None => []
              end).

Definition jobsToJSON (jobs : list JobApplication) : json :=
  JArray (map jobToJSON jobs).

(** [JSON.parse (raw) as JobApplication[]] is an unchecked cast.  The
    embedding covers the values that have the declared type, with the
    properties in the order the program writes them; any other value is
    outside of it ([None]). *)
Definition jobOfJSON (v : json) : option JobApplication :=
  match v with
  | JObject ((k1, JString i) :: (k2, JString c) :: (k3, JString r)
             :: (k4, JString s) :: (k5, JString t) :: more) =>
      if bool_decide (k1 = js "id") && bool_decide (k2 = js "company")
         && bool_decide (k3 = js "role") && bool_decide (k4 = js "status")
         && bool_decide (k5 = js "createdAt")
      then
        st ← isStatus s;
        match more with
        | [] => Some {| id := i; company := c; role := r; status := st;
                        createdAt := t; notes := None |}
        | [(k6, JString n)] =>
            if bool_decide (k6 = js "notes")
            then Some {| id := i; company := c; role := r; status := st;
                         createdAt := t; notes := Some n |}
            else None
        | _ => None
        end
      else None
  | _ => None
  end.

Definition jobsOfJSON (v : json) : option (list JobApplication) :=
  match v with
  | JArray elements => mapM jobOfJSON elements
  | _ => None
  end.

End Model.
Export Model.

(** ** The process: console, backing file, exit *)

Module Process.

(** What one run can observe and change: the text of [jobs.json] and the
    lines written by [console.log] and [console.error].  The file is
    [None] when it does not exist.  It is held as the text that reading
    it as UTF-8 gives; the text the program writes is well-formed UTF-16,
    which UTF-8 stores without loss. *)
Record World := {
  file : option jsstring;
  stdout : list jsstring;
  stderr : list jsstring
}.

(** Exceptions the program does not catch. *)
Inductive Exception :=
| SyntaxError   (* thrown by JSON.parse *)
| ENOENT.       (* thrown by readFileSync on a missing file *)

(** Ways a run stops before [main] returns. *)
Inductive Halt :=
| Exit (code : Z)           (* process.exit (code) *)
| Uncaught (e : Exception)  (* nothing in the program catches *)
| OutsideDeclaredType.      (* the parsed value is not a JobApplication[] *)

Definition Proc (A : Type) : Type := World -> (A + Halt) * World.

Definition ret {A} (a : A) : Proc A := fun w => (inl a, w).

Definition bind {A B} (m : Proc A) (k : A -> Proc B) : Proc B :=
  fun w =>
    match m w with
    | (inl a, w') => k a w'
    | (inr h, w') => (inr h, w')
    end.

Definition halt {A} (h : Halt) : Proc A := fun w => (inr h, w).

Definition process_exit {A} (code : Z) : Proc A := halt (Exit code).

Definition console_log (line : jsstring) : Proc unit :=
  fun w => (inl tt, {| file := file w; stdout := stdout w ++ [line];
                       stderr := stderr w |}).

Definition console_error (line : jsstring) : Proc unit :=
  fun w => (inl tt, {| file := file w; stdout := stdout w;
                       stderr := stderr w ++ [line] |}).

Definition existsSync : Proc bool :=
  fun w => (inl (bool_decide (is_Some (file w))), w).

Definition readFileSync : Proc jsstring :=
  fun w =>
    match file w with
    | Some text => (inl text, w)
    | None => (inr (Uncaught ENOENT), w)
    end.

Definition writeFileSync (text : jsstring) : Proc unit :=
  fun w => (inl tt, {| file := Some text; stdout := stdout w;
                       stderr := stderr w |}).

(** [for (const x of xs) body] *)
Fixpoint forOf {A} (xs : list A) (body : A -> Proc unit) : Proc unit :=
  match xs with
  | [] => ret tt
  | x :: rest => bind (body x) (fun _ => forOf rest body)
  end.

(** The exit status the shell sees: 0 when [main] returns, the argument
    of [process.exit], 1 for an uncaught exception. *)
Definition exitStatus {A} (r : A + Halt) : option Z :=
  match r with
  | inl _ => Some 0%Z
  | inr (Exit code) => Some code
  | inr (Uncaught _) => Some 1%Z
  | inr OutsideDeclaredType => None
  end.

End Process.
Export Process.

Notation "x <- m ;; k" := (bind m (fun x => k))
  (at level 100, m at next level, right associativity).
Notation "m ;; k" := (bind m (fun _ => k))
  (at level 100, right associativity).

(** ** The program *)

Module Tracker.

(** Values the runtime supplies: the clock, the random source and the
    locale.  [Math_random_hex] is [Math.random().toString(16)]. *)
Record Env := {
  Date_now : N;
  Math_random_hex : jsstring;
  Date_toISOString : jsstring;
  toLocaleString : jsstring -> jsstring
}.

Definition loadJobs : Proc (list JobApplication) :=
  present <- existsSync ;;
  if negb present then ret []
  else
    raw <- readFileSync ;;
    match JSON_parse raw with
    | None => halt (Uncaught SyntaxError)
    | Some v =>
        match jobsOfJSON v with
        | Some jobs => ret jobs
        | None => halt OutsideDeclaredType
        end
    end.

Definition saveJobs (jobs : list JobApplication) : Proc unit :=
  writeFileSync (JSON_stringify (jobsToJSON jobs)).

Definition makeId (env : Env) : jsstring :=
  decimal (Date_now env) ++ js "-" ++ drop 2 (Math_random_hex env).

Definition dq : jsstring := [34].

Definition helpText : jsstring :=
  js "
Job Tracker (TypeScript CLI)

Commands:
  add " ++ dq ++ js "<company>" ++ dq ++ js " " ++ dq ++ js "<role>" ++ dq
  ++ js " [status] [notes]
  list
  update <id> <status>
  remove <id>
  help

Statuses: saved | applied | interview | offer | rejected

Examples:
  npm run dev -- add " ++ dq ++ js "Google" ++ dq ++ js " " ++ dq
  ++ js "Software Engineer" ++ dq ++ js " applied " ++ dq
  ++ js "Reached out via referral" ++ dq ++ js "
  npm run dev -- list
  npm run dev -- update 1700000000-ab12 applied
".

Definition printHelp : Proc unit := console_log helpText.

Definition requireArg (value : option jsstring) (name : jsstring)
  : Proc jsstring :=
  match value with
  | Some v =>
      if bool_decide (trim v = []) then
        console_error (js "Missing required argument: " ++ name) ;;
        process_exit 1
      else ret v
  | None =>
      console_error (js "Missing required argument: " ++ name) ;;
      process_exit 1
  end.

(** [maybeStatus && isStatus (maybeStatus)]: an undefined or empty token
    is falsy before [isStatus] is asked. *)
Definition statusToken (maybeStatus : option jsstring) : option JobStatus :=
  match maybeStatus with
  | Some (c :: s) => isStatus (c :: s)
  | _ => None
  end.

(** [text || undefined] *)
Definition orUndefined (text : jsstring) : option jsstring :=
  match text with
  | [] => None
  | _ :: _ => Some text
  end.

(** [jobs.findIndex (pred)], [None] for -1. *)
Definition findIndex {A} (pred : A -> bool) (xs : list A) : option nat :=
  fst <$> list_find (fun x => pred x = true) xs.

Definition noJobsText : jsstring :=
  js "No jobs saved yet. Add one with: npm run dev -- add "
  ++ dq ++ js "Company" ++ dq ++ js " " ++ dq ++ js "Role" ++ dq.

Definition main (env : Env) (argv : list jsstring) : Proc unit :=
  let command := argv !! 0%nat in
  let args := drop 1 argv in
  jobs <- loadJobs ;;
  match command with
  | None => printHelp
  | Some command =>
  if bool_decide (command = []) || bool_decide (command = js "help") then
    printHelp
  else if bool_decide (command = js "add") then
    company <- requireArg (args !! 0%nat) (js "company") ;;
    role <- requireArg (args !! 1%nat) (js "role") ;;
    let maybeStatus := args !! 2%nat in
    let status := default saved (statusToken maybeStatus) in
    let notes :=
      orUndefined
        (join (js " ")
              (drop (if statusToken maybeStatus is Some _ then 3 else 2) args)) in
    let newJob :=
      {| id := makeId env; company := company; role := role;
         status := status; createdAt := Date_toISOString env;
         notes := notes |} in
    let updated := newJob :: jobs in
    saveJobs updated ;;
    console_log ([9989] ++ js " Added: " ++ Model.company newJob
                 ++ js " " ++ [8212] ++ js " " ++ Model.role newJob
                 ++ js " (" ++ statusText (Model.status newJob) ++ js ")") ;;
    console_log (js "   id: " ++ id newJob)
  else if bool_decide (command = js "list") then
    if bool_decide (length jobs = 0%nat) then
      console_log noJobsText
    else
      console_log ([10; 55357; 56524] ++ js " Job Applications ("
                   ++ decimal (N.of_nat (length jobs)) ++ js ")" ++ [10]) ;;
      forOf jobs (fun j =>
        console_log (js "- " ++ company j ++ js " " ++ [8212] ++ js " "
                     ++ role j) ;;
        console_log (js "  id: " ++ id j) ;;
        console_log (js "  status: " ++ statusText (status j)) ;;
        console_log (js "  created: " ++ toLocaleString env (createdAt j)) ;;
        match notes j with
        | Some (c :: n) => console_log (js "  notes: " ++ c :: n)
        | _ => ret tt
        end ;;
        console_log [])
  else if bool_decide (command = js "update") then
    id <- requireArg (args !! 0%nat) (js "id") ;;
    newStatusRaw <- requireArg (args !! 1%nat) (js "status") ;;
    match isStatus newStatusRaw with
    | None =>
        console_error (js "Invalid status: " ++ newStatusRaw) ;;
        printHelp ;;
        process_exit 1
    | Some newStatus =>
        match findIndex (fun j => bool_decide (Model.id j = id)) jobs with
        | None =>
            console_error (js "No job found with id: " ++ id) ;;
            process_exit 1
        | Some idx =>
            let jobs := alter (setStatus newStatus) idx jobs in
            saveJobs jobs ;;
            console_log ([9989] ++ js " Updated " ++ id ++ js " "
                         ++ [8594] ++ js " " ++ newStatusRaw)
        end
    end
  else if bool_decide (command = js "remove") then
    id <- requireArg (args !! 0%nat) (js "id") ;;
    let filtered := filter (fun j => Model.id j ≠ id) jobs in
    if bool_decide (length filtered = length jobs) then
      console_error (js "No job found with id: " ++ id) ;;
      process_exit 1
    else
      saveJobs filtered ;;
      console_log ([55357; 56785; 65039] ++ js " Removed " ++ id)
  else
    console_error (js "Unknown command: " ++ command) ;;
    printHelp
  end.

(** One invocation: the exit status and the world it leaves. *)
Definition run (env : Env) (argv : list jsstring) (w : World)
  : option Z * World :=
  let '(r, w') := main env argv w in (exitStatus r, w').

End Tracker.
Export Tracker.

(** ** Notions used to state the properties *)

Module Notions.

(** *** About JSON values *)

(** Values without number tokens; an entry of the tracker is one. *)
Fixpoint plain (v : json) : bool :=
  match v with
  | JNumber _ => false
  | JArray elements => forallb plain elements
  | JObject members => forallb (fun m => plain (snd m)) members
  | _ => true
  end.

(** Fuel that [parseValue] uses on the printed form of a value. *)
Fixpoint need (v : json) : nat :=
  match v with
  | JArray elements => S (list_sum (map (fun x => S (need x)) elements))
  | JObject members => S (list_sum (map (fun m => S (need (snd m))) members))
  | _ => 1
  end.

(** UTF-16 text in which every surrogate is part of a pair. *)
Fixpoint wellFormed (s : jsstring) : bool :=
  match s with
  | [] => true
  | c :: rest =>
      if isHighSurrogate c then
        match rest with
        | d :: rest' => isLowSurrogate d && wellFormed rest'
        | [] => false
        end
      else negb (isLowSurrogate c) && wellFormed rest
  end.

Definition blank (s : jsstring) : Prop := Forall (fun c => isJsonSpace c = true) s.

(** The printed form of a value starts with a character that is neither
    whitespace nor a closing bracket. *)
Definition opener (c : N) : Prop :=
  isJsonSpace c = false /\ c <> 93 /\ c <> 125.

Definition parses_back (v : json) : Prop :=
  plain v = true ->
  forall ind out fuel,
    blank ind -> (need v <= fuel)%nat ->
    parseValue fuel (stringify ind v ++ out) = Some (v, out).

(** *** About worlds *)

Definition withFile (text : jsstring) (w : World) : World :=
  {| file := Some text; stdout := stdout w; stderr := stderr w |}.

Definition withOut (line : jsstring) (w : World) : World :=
  {| file := file w; stdout := stdout w ++ [line]; stderr := stderr w |}.

Definition withErr (line : jsstring) (w : World) : World :=
  {| file := file w; stdout := stdout w; stderr := stderr w ++ [line] |}.

(** A computation that leaves the backing file as it is. *)
Definition keepsFile {A} (m : Proc A) : Prop :=
  forall w, file (snd (m w)) = file w.

(** What [loadJobs] returns for a file with this content ([None]: no
    file). *)
Definition stored (text : option jsstring) : list JobApplication + Halt :=
  match text with
  | None => inl []
  | Some raw =>
      match JSON_parse raw with
      | None => inr (Uncaught SyntaxError)
      | Some v =>
          match jobsOfJSON v with
          | Some jobs => inl jobs
          | None => inr OutsideDeclaredType
          end
      end
  end.

(** The entry that [add company role rest...] builds. *)
Definition added (env : Env) (company role : jsstring) (rest : list jsstring)
  : JobApplication :=
  {| id := makeId env; company := company; role := role;
     status := default saved (statusToken (rest !! 0%nat));
     createdAt := Date_toISOString env;
     notes := orUndefined
                (join (js " ")
                      (if statusToken (rest !! 0%nat) is Some _
                       then drop 1 rest else rest)) |}.

(** *** About collections and runs *)

Definition fresh : World := {| file := None; stdout := []; stderr := [] |}.

Definition env0 : Env :=
  {| Date_now := 1700000000000; Math_random_hex := js "0.ab12cd";
     Date_toISOString := js "2023-11-14T22:13:20.000Z";
     toLocaleString := fun s => s |}.

(** [j'] is [j] except, possibly, for its status. *)
Definition sameButStatus (j j' : JobApplication) : Prop :=
  id j' = id j /\ company j' = company j /\ role j' = role j
  /\ createdAt j' = createdAt j /\ notes j' = notes j.

(** A store that holds [jobs], as the program writes it. *)
Definition storeOf (jobs : list JobApplication) : World :=
  {| file := Some (JSON_stringify (jobsToJSON jobs)); stdout := []; stderr := [] |}.

Definition acme : JobApplication :=
  {| id := js "1700000000000-ab12cd"; company := js "Acme";
     role := js "Engineer"; status := saved;
     createdAt := js "2023-11-14T22:13:20.000Z"; notes := None |}.

Definition globex : JobApplication :=
  {| id := js "1700000000555-9f3e"; company := js "Globex";
     role := js "Analyst"; status := interview;
     createdAt := js "2023-11-14T22:13:20.555Z";
     notes := Some (js "second round") |}.

(** The five status words, as the claim lists them. *)
Definition statusWords : list jsstring :=
  [js "saved"; js "applied"; js "interview"; js "offer"; js "rejected"].

(** An entry whose id is a single space: the type allows it, [add]
    never creates it. *)
Definition spaceId : JobApplication :=
  {| id := js " "; company := js "Acme"; role := js "Engineer";
     status := saved; createdAt := js "2023-11-14T22:13:20.000Z";
     notes := None |}.

Definition acmeApplied : JobApplication := setStatus applied acme.

(** What C3 promises of a run of [update X status]: the not-found
    message, a non-zero exit status and an untouched file. *)
Definition reportsNoJob (env : Env) (X s : jsstring) (w : World) : Prop :=
  exists code w',
    run env [js "update"; X; s] w = (code, w')
    /\ code <> Some 0%Z
    /\ stderr w' = stderr w ++ [js "No job found with id: " ++ X]
    /\ file w' = file w.

(** What C5 promises of [remove X] when exactly one entry has id [X]. *)
Definition removesOne (env : Env) (X : jsstring) (w : World)
    (jobs : list JobApplication) : Prop :=
  exists code w' jobs',
    run env [js "remove"; X] w = (code, w')
    /\ loadJobs w' = (inl jobs', w')
    /\ (length jobs' + 1 = length jobs)%nat.

(** What C8 promises of [update X status] when an entry with id [X]
    already has that status: success, and the same collection. *)
Definition acceptsUnchanged (env : Env) (X s : jsstring) (w : World)
    (jobs : list JobApplication) : Prop :=
  exists w',
    run env [js "update"; X; s] w = (Some 0%Z, w')
    /\ loadJobs w' = (inl jobs, w').

End Notions.
Export Notions.

(** ** The behaviours of one invocation *)

Module Behaviour.

(** A required argument that [requireArg] rejects: absent, or blank. *)
Definition blankArg (value : option jsstring) : bool :=
  match value with
  | Some v => bool_decide (trim v = [])
  | None => true
  end.

(** The first required argument of a command that is absent or blank, in
    the order [main] asks for them. *)
Definition firstMissing (command : jsstring) (args : list jsstring)
  : option jsstring :=
  if bool_decide (command = js "add") then
    if blankArg (args !! 0%nat) then Some (js "company")
    else if blankArg (args !! 1%nat) then Some (js "role")
    else None
  else if bool_decide (command = js "update") then
    if blankArg (args !! 0%nat) then Some (js "id")
    else if blankArg (args !! 1%nat) then Some (js "status")
    else None
  else if bool_decide (command = js "remove") then
    if blankArg (args !! 0%nat) then Some (js "id") else None
  else None.

Definition withLines (lines : list jsstring) (w : World) : World :=
  {| file := file w; stdout := stdout w ++ lines; stderr := stderr w |}.

(** The lines [list] prints for one entry. *)
Definition entryLines (env : Env) (j : JobApplication) : list jsstring :=
  [ js "- " ++ company j ++ js " " ++ [8212] ++ js " " ++ role j;
    js "  id: " ++ id j;
    js "  status: " ++ statusText (status j);
    js "  created: " ++ toLocaleString env (createdAt j) ]
  ++ match notes j with
     | Some (c :: n) => [ js "  notes: " ++ c :: n ]
     | _ => []
     end
  ++ [ [] ].

(** Everything [list] prints for a collection. *)
Definition listing (env : Env) (jobs : list JobApplication) : list jsstring :=
  match jobs with
  | [] => [ noJobsText ]
  | _ :: _ =>
      ([10; 55357; 56524] ++ js " Job Applications ("
       ++ decimal (N.of_nat (length jobs)) ++ js ")" ++ [10])
      :: concat (map (entryLines env) jobs)
  end.

(** The worlds that the three writing commands leave. *)
Definition afterAdd (env : Env) (company role : jsstring)
    (rest : list jsstring) (jobs : list JobApplication) (w : World) : World :=
  let newJob := added env company role rest in
  withOut (js "   id: " ++ id newJob)
    (withOut ([9989] ++ js " Added: " ++ company ++ js " " ++ [8212]
              ++ js " " ++ role ++ js " (" ++ statusText (status newJob)
              ++ js ")")
       (withFile (JSON_stringify (jobsToJSON (newJob :: jobs))) w)).

Definition afterUpdate (X s : jsstring) (st : JobStatus) (idx : nat)
    (jobs : list JobApplication) (w : World) : World :=
  withOut ([9989] ++ js " Updated " ++ X ++ js " " ++ [8594] ++ js " " ++ s)
    (withFile (JSON_stringify (jobsToJSON (alter (setStatus st) idx jobs))) w).

Definition afterRemove (X : jsstring) (jobs : list JobApplication)
    (w : World) : World :=
  withOut ([55357; 56785; 65039] ++ js " Removed " ++ X)
    (withFile (JSON_stringify (jobsToJSON (filter (fun j => id j <> X) jobs))) w).

(** What one invocation does to a world whose store holds [jobs]: the
    nine ways through [main]. *)
Inductive Outcome (env : Env) (w : World) (jobs : list JobApplication)
  : list jsstring -> option Z * World -> Prop :=
| ShowsHelp argv :
    argv !! 0%nat = None \/ argv !! 0%nat = Some []
    \/ argv !! 0%nat = Some (js "help") ->
    Outcome env w jobs argv (Some 0%Z, withOut helpText w)
| UnknownCommand command args :
    command <> [] ->
    command ∉ [js "add"; js "list"; js "update"; js "remove"; js "help"] ->
    Outcome env w jobs (command :: args)
      (Some 0%Z, withOut helpText (withErr (js "Unknown command: " ++ command) w))
| MissingArgument command args name :
    firstMissing command args = Some name ->
    Outcome env w jobs (command :: args)
      (Some 1%Z, withErr (js "Missing required argument: " ++ name) w)
| InvalidStatus X s rest :
    trim X <> [] -> trim s <> [] -> isStatus s = None ->
    Outcome env w jobs (js "update" :: X :: s :: rest)
      (Some 1%Z, withOut helpText (withErr (js "Invalid status: " ++ s) w))
| NotFound command X rest :
    command = js "update" \/ command = js "remove" ->
    firstMissing command (X :: rest) = None ->
    (command = js "update" -> exists s st, rest !! 0%nat = Some s
                                           /\ isStatus s = Some st) ->
    X ∉ map id jobs ->
    Outcome env w jobs (command :: X :: rest)
      (Some 1%Z, withErr (js "No job found with id: " ++ X) w)
| Added company role rest :
    trim company <> [] -> trim role <> [] ->
    Outcome env w jobs (js "add" :: company :: role :: rest)
      (Some 0%Z, afterAdd env company role rest jobs w)
| Updated X s st idx rest :
    trim X <> [] -> isStatus s = Some st ->
    findIndex (fun j => bool_decide (id j = X)) jobs = Some idx ->
    Outcome env w jobs (js "update" :: X :: s :: rest)
      (Some 0%Z, afterUpdate X s st idx jobs w)
| Removed X rest :
    trim X <> [] -> X ∈ map id jobs ->
    Outcome env w jobs (js "remove" :: X :: rest)
      (Some 0%Z, afterRemove X jobs w)
| Listed args :
    Outcome env w jobs (js "list" :: args)
      (Some 0%Z, withLines (listing env jobs) w).

(** Successive invocations, each with the clock and random source of its
    moment, on the world the previous one left. *)
Fixpoint session (calls : list (Env * list jsstring)) (w : World) : World :=
  match calls with
  | [] => w
  | (env, argv) :: later => session later (snd (run env argv w))
  end.

End Behaviour.
Export Behaviour.

(** ** JSON: what is printed parses back *)

Module JsonFacts.

Ltac literals :=
  repeat match goal with
         | |- context [js ?s] =>
             let v := eval vm_compute in (js s) in change (js s) with v
         end.

Lemma json_ind (P : json -> Prop) :
  P JNull ->
  (forall b, P (JBool b)) ->
  (forall lexeme, P (JNumber lexeme)) ->
  (forall s, P (JString s)) ->
  (forall elements, Forall P elements -> P (JArray elements)) ->
  (forall members, Forall (fun m => P (snd m)) members -> P (JObject members)) ->
  forall v, P v.
Proof.
  intros Hnull Hbool Hnum Hstr Harr Hobj.
  fix IH 1. intros [ | b | lexeme | s | elements | members ].
  - exact Hnull.
  - apply Hbool.
  - apply Hnum.
  - apply Hstr.
  - apply Harr. induction elements as [ | x l IHl ]; constructor; [ apply IH | exact IHl ].
  - apply Hobj. induction members as [ | [k x] l IHl ]; constructor; [ apply IH | exact IHl ].
Qed.

Lemma skipSpace_blank ws s : blank ws -> skipSpace (ws ++ s) = skipSpace s.
Proof. induction 1 as [ | c ws Hc _ IH ]; simpl; [ done | by rewrite Hc ]. Qed.

Lemma skipSpace_solid c s : isJsonSpace c = false -> skipSpace (c :: s) = c :: s.
Proof. intros H. simpl. by rewrite H. Qed.

Lemma blank_gap ind : blank ind -> blank (ind ++ gap).
Proof. intros H. apply Forall_app. split; [ done | by repeat constructor ]. Qed.

Lemma hexValue_hexDigit d : d < 16 -> hexValue (hexDigit d) = Some d.
Proof.
  intros Hd. unfold hexValue, hexDigit.
  destruct (N.ltb_spec d 10).
  - replace (48 <=? 48 + d) with true by (symmetry; apply N.leb_le; lia).
    replace (48 + d <=? 57) with true by (symmetry; apply N.leb_le; lia).
    simpl. f_equal. lia.
  - replace (87 + d <=? 57) with false by (symmetry; apply N.leb_gt; lia).
    rewrite andb_false_r.
    replace (97 <=? 87 + d) with true by (symmetry; apply N.leb_le; lia).
    replace (87 + d <=? 102) with true by (symmetry; apply N.leb_le; lia).
    simpl. f_equal. lia.
Qed.

Lemma hex_digits c :
  c < 65536 ->
  (c / 4096 mod 16) * 4096 + (c / 256 mod 16) * 256 + (c / 16 mod 16) * 16
  + c mod 16 = c.
Proof.
  intros Hc. zify. Z.to_euclidean_division_equations. lia.
Qed.

Lemma parse_unicodeEscape c tail body out :
  c < 65536 ->
  parseStringBody tail = Some (body, out) ->
  parseStringBody (unicodeEscape c ++ tail) = Some (c :: body, out).
Proof.
  intros Hc Htail. unfold unicodeEscape. cbn [app parseStringBody].
  change (92 =? 34) with false. change (92 =? 92) with true.
  change (117 =? 117) with true. cbn match.
  rewrite !hexValue_hexDigit by (apply N.mod_lt; lia).
  cbn [mbind option_bind]. rewrite Htail. cbn [mbind option_bind].
  by rewrite hex_digits.
Qed.

Lemma parse_verbatim c tail body out :
  c <> 34 -> c <> 92 -> 32 <= c ->
  parseStringBody tail = Some (body, out) ->
  parseStringBody (c :: tail) = Some (c :: body, out).
Proof.
  intros H34 H92 H32 Htail. cbn [parseStringBody].
  destruct (N.eqb_spec c 34); [ done | ].
  destruct (N.eqb_spec c 92); [ done | ].
  destruct (N.ltb_spec c 32); [ lia | ].
  rewrite Htail. done.
Qed.

Lemma parse_quoteUnit c tail body out :
  parseStringBody tail = Some (body, out) ->
  parseStringBody (quoteUnit c ++ tail) = Some (c :: body, out).
Proof.
  intros Htail. unfold quoteUnit.
  repeat match goal with
         | |- context [N.eqb c ?k] =>
             destruct (N.eqb_spec c k);
             [ subst c; cbn [app parseStringBody]; cbn; rewrite Htail; done | ]
         end.
  destruct ((c <? 32) || isHighSurrogate c || isLowSurrogate c) eqn:Hesc.
  - apply parse_unicodeEscape; [ | done ].
    unfold isHighSurrogate, isLowSurrogate in Hesc.
    repeat (apply orb_true_iff in Hesc as [Hesc | Hesc]).
    + apply N.ltb_lt in Hesc. lia.
    + apply andb_true_iff in Hesc as [_ Hesc]. apply N.leb_le in Hesc. lia.
    + apply andb_true_iff in Hesc as [_ Hesc]. apply N.leb_le in Hesc. lia.
  - apply orb_false_iff in Hesc as [Hesc _].
    apply orb_false_iff in Hesc as [Hesc _]. apply N.ltb_ge in Hesc.
    by apply parse_verbatim.
Qed.

Lemma quoteBody_cons2 c d rest :
  quoteBody (c :: d :: rest) =
  if isHighSurrogate c && isLowSurrogate d
  then c :: d :: quoteBody rest
  else quoteUnit c ++ quoteBody (d :: rest).
Proof. reflexivity. Qed.

Lemma parse_quoteBody s out :
  parseStringBody (quoteBody s ++ 34 :: out) = Some (s, out).
Proof.
  remember (length s) as n eqn:Hn.
  revert s Hn. induction (lt_wf n) as [n _ IH]. intros s Hn.
  destruct s as [ | c [ | d rest ] ].
  - done.
  - cbn [quoteBody]. by apply parse_quoteUnit.
  - rewrite quoteBody_cons2.
    destruct (isHighSurrogate c && isLowSurrogate d) eqn:Hpair.
    + apply andb_true_iff in Hpair as [Hc Hd].
      unfold isHighSurrogate in Hc. unfold isLowSurrogate in Hd.
      apply andb_true_iff in Hc as [Hc _]. apply N.leb_le in Hc.
      apply andb_true_iff in Hd as [Hd _]. apply N.leb_le in Hd.
      cbn [app]. apply parse_verbatim; [ lia .. | ].
      apply parse_verbatim; [ lia .. | ].
      apply (IH (length rest)); [ subst n; simpl; lia | done ].
    + rewrite <- app_assoc. apply parse_quoteUnit.
      apply (IH (length (d :: rest))); [ subst n; simpl; lia | done ].
Qed.

Lemma parse_quote s out :
  parseStringBody (tail (quote s ++ out)) = Some (s, out).
Proof. unfold quote. cbn [app tail]. rewrite <- app_assoc. apply parse_quoteBody. Qed.

(** Unfolding equations of the parser, one per leading character. *)

Lemma parseValue_blank fuel ws s :
  blank ws -> parseValue fuel (ws ++ s) = parseValue fuel s.
Proof. intros H. destruct fuel; [ done | ]. simpl. by rewrite skipSpace_blank. Qed.

Lemma parseValue_string fuel rest :
  parseValue (S fuel) (34 :: rest) =
  '(str, out) ← parseStringBody rest; Some (JString str, out).
Proof. reflexivity. Qed.

Lemma parseValue_array fuel rest :
  parseValue (S fuel) (91 :: rest) =
  match skipSpace rest with
  | d :: out =>
      if d =? 93 then Some (JArray [], out)
      else '(l, out') ← parseElements fuel rest; Some (JArray l, out')
  | [] => None
  end.
Proof. reflexivity. Qed.

Lemma parseValue_object fuel rest :
  parseValue (S fuel) (123 :: rest) =
  match skipSpace rest with
  | d :: out =>
      if d =? 125 then Some (JObject [], out)
      else '(l, out') ← parseMembers fuel rest; Some (JObject l, out')
  | [] => None
  end.
Proof. reflexivity. Qed.

Lemma parseElements_S fuel s :
  parseElements (S fuel) s =
  '(v, out) ← parseValue fuel s;
  match skipSpace out with
  | d :: out' =>
      if d =? 44 then '(l, out'') ← parseElements fuel out'; Some (v :: l, out'')
      else if d =? 93 then Some ([v], out')
      else None
  | [] => None
  end.
Proof. reflexivity. Qed.

Lemma parseMembers_S fuel s :
  parseMembers (S fuel) s =
  match skipSpace s with
  | q :: s1 =>
      if q =? 34 then
        '(key, s2) ← parseStringBody s1;
        match skipSpace s2 with
        | colon :: s3 =>
            if colon =? 58 then
              '(v, out) ← parseValue fuel s3;
              match skipSpace out with
              | d :: out' =>
                  if d =? 44 then
                    '(l, out'') ← parseMembers fuel out';
                    Some ((key, v) :: l, out'')
                  else if d =? 125 then Some ([(key, v)], out')
                  else None
              | [] => None
              end
            else None
        | [] => None
        end
      else None
  | [] => None
  end.
Proof. reflexivity. Qed.

Lemma join_map_cons {A} sep (f : A -> jsstring) x l :
  join sep (map f (x :: l)) =
  f x ++ match l with [] => [] | _ :: _ => sep ++ join sep (map f l) end.
Proof. destruct l; simpl; [ by rewrite app_nil_r | done ]. Qed.

Lemma stringify_head ind v :
  plain v = true -> exists c t, stringify ind v = c :: t /\ opener c.
Proof.
  unfold opener.
  destruct v as [ | [ | ] | lexeme | s | [ | x l ] | [ | m l ] ]; intros Hv;
    try discriminate; cbn [stringify]; literals; cbn [app quote];
    eexists _, _; (split; [ reflexivity | ]); done.
Qed.

Lemma parseElements_join l :
  l <> [] -> Forall parses_back l -> forallb plain l = true ->
  forall ws ind tail out fuel,
    blank ws -> blank ind -> skipSpace tail = 93 :: out ->
    (list_sum (map (fun x => S (need x)) l) <= fuel)%nat ->
    parseElements fuel (ws ++ join (44 :: 10 :: ind) (map (stringify ind) l) ++ tail)
    = Some (l, out).
Proof.
  induction l as [ | x l IH ]; [ done | ].
  intros _ Hall Hplain ws ind tail out fuel Hws Hind Htail Hfuel.
  inversion_clear Hall as [ | ? ? Hx Hall' ].
  cbn [forallb] in Hplain. apply andb_true_iff in Hplain as [Hpx Hpl].
  cbn [map list_sum fold_right] in Hfuel.
  destruct fuel as [ | fuel ]; [ lia | ].
  rewrite parseElements_S, parseValue_blank by done.
  rewrite join_map_cons, <- app_assoc.
  rewrite (Hx Hpx) by (done || lia). cbn [mbind option_bind].
  destruct l as [ | y l ].
  - cbn [app]. rewrite Htail. done.
  - rewrite <- app_assoc. cbn [app].
    rewrite skipSpace_solid by done. change (44 =? 44) with true. cbv iota.
    change (10 :: ind ++ ?t) with ((10 :: ind) ++ t).
    rewrite (IH ltac:(done) Hall' Hpl (10 :: ind) ind tail out fuel);
      [ done | by constructor | done | done | cbn [map list_sum fold_right] in *; lia ].
Qed.

Lemma parseMembers_join l :
  l <> [] -> Forall (fun m => parses_back (snd m)) l ->
  forallb (fun m => plain (snd m)) l = true ->
  forall ws ind tail out fuel,
    blank ws -> blank ind -> skipSpace tail = 125 :: out ->
    (list_sum (map (fun m => S (need (snd m))) l) <= fuel)%nat ->
    parseMembers fuel
      (ws ++ join (44 :: 10 :: ind)
                  (map (fun m => quote (fst m) ++ 58 :: 32 :: stringify ind (snd m)) l)
          ++ tail)
    = Some (l, out).
Proof.
  induction l as [ | [k x] l IH ]; [ done | ].
  intros _ Hall Hplain ws ind tail out fuel Hws Hind Htail Hfuel.
  inversion_clear Hall as [ | ? ? Hx Hall' ]. cbn [snd] in Hx.
  cbn [forallb snd] in Hplain. apply andb_true_iff in Hplain as [Hpx Hpl].
  cbn [map list_sum fold_right snd] in Hfuel.
  destruct fuel as [ | fuel ]; [ lia | ].
  rewrite parseMembers_S, skipSpace_blank by done.
  rewrite join_map_cons, <- !app_assoc. cbn [fst snd].
  unfold quote at 1. cbn [app]. rewrite <- !app_assoc.
  rewrite skipSpace_solid by done. change (34 =? 34) with true. cbv iota.
  change ([34] ++ ?t) with (34 :: t).
  rewrite parse_quoteBody. cbn [mbind option_bind app].
  rewrite skipSpace_solid by done. change (58 =? 58) with true. cbv iota.
  change (32 :: stringify ind x ++ ?t) with ([32] ++ stringify ind x ++ t).
  rewrite parseValue_blank by (by repeat constructor).
  rewrite (Hx Hpx) by (done || lia). cbn [mbind option_bind].
  destruct l as [ | y l ].
  - cbn [app]. rewrite Htail. done.
  - cbn [app]. rewrite <- app_assoc.
    rewrite skipSpace_solid by done. change (44 =? 44) with true. cbv iota.
    change (10 :: ind ++ ?t) with ((10 :: ind) ++ t).
    rewrite (IH ltac:(done) Hall' Hpl (10 :: ind) ind tail out fuel);
      [ done | by constructor | done | done | cbn [map list_sum fold_right] in *; lia ].
Qed.

Lemma stringify_array ind x l :
  stringify ind (JArray (x :: l)) =
  91 :: (10 :: ind ++ gap)
     ++ join (44 :: 10 :: ind ++ gap) (map (stringify (ind ++ gap)) (x :: l))
     ++ 10 :: ind ++ [93].
Proof. reflexivity. Qed.

Lemma stringify_object ind m l :
  stringify ind (JObject (m :: l)) =
  123 :: (10 :: ind ++ gap)
      ++ join (44 :: 10 :: ind ++ gap)
              (map (fun m => quote (fst m) ++ 58 :: 32 :: stringify (ind ++ gap) (snd m))
                   (m :: l))
      ++ 10 :: ind ++ [125].
Proof. reflexivity. Qed.

Lemma skipSpace_closing ind c out :
  blank ind -> isJsonSpace c = false ->
  skipSpace ((10 :: ind ++ [c]) ++ out) = c :: out.
Proof.
  intros Hind Hc. cbn [app]. rewrite <- app_assoc.
  change (10 :: ind ++ ?t) with ((10 :: ind) ++ t).
  rewrite skipSpace_blank by (by constructor). by apply skipSpace_solid.
Qed.

Ltac flatten := repeat (progress cbn [app] || rewrite <- app_assoc).

Lemma skipSpace_first {A} ws sep (f : A -> jsstring) x l tail :
  blank ws ->
  (exists c t, f x = c :: t /\ opener c) ->
  exists c t, skipSpace (ws ++ join sep (map f (x :: l)) ++ tail) = c :: t
              /\ opener c.
Proof.
  intros Hws (c & t & Hhead & Hc).
  rewrite skipSpace_blank, join_map_cons, Hhead by done. cbn [app].
  rewrite skipSpace_solid by apply Hc. eauto.
Qed.

(** Parsing the printed form of a value gives the value back, whatever
    text follows it. *)
Theorem parse_stringify v : parses_back v.
Proof.
  induction v as [ | b | lexeme | s | l IH | l IH ] using json_ind;
    intros Hplain ind out fuel Hind Hfuel;
    (destruct fuel as [ | fuel ]; [ cbn [need] in Hfuel; lia | ]).
  - reflexivity.
  - destruct b; reflexivity.
  - discriminate.
  - cbn [stringify]. unfold quote. flatten.
    rewrite parseValue_string, parse_quoteBody. done.
  - destruct l as [ | x l ]; [ reflexivity | ].
    rewrite stringify_array. cbn [need] in Hfuel.
    pose proof (blank_gap ind Hind) as Hind'.
    set (ind' := ind ++ gap) in *. flatten.
    rewrite parseValue_array.
    change (10 :: ind' ++ ?t) with ((10 :: ind') ++ t).
    destruct (skipSpace_first (10 :: ind') (44 :: 10 :: ind') (stringify ind')
                x l (10 :: ind ++ 93 :: out))
      as (c & t & Hskip & _ & Hc & _).
    { by constructor. }
    { apply stringify_head. cbn [plain forallb] in Hplain.
      by apply andb_true_iff in Hplain as [? _]. }
    rewrite Hskip. destruct (N.eqb_spec c 93); [ done | ].
    rewrite (parseElements_join (x :: l) ltac:(done) IH Hplain
               (10 :: ind') ind' _ out fuel);
      [ done | by constructor | done | | lia ].
    change (10 :: ind ++ ?t) with ((10 :: ind) ++ t).
    rewrite skipSpace_blank by (by constructor). done.
  - destruct l as [ | [k x] l ]; [ reflexivity | ].
    rewrite stringify_object. cbn [need] in Hfuel.
    pose proof (blank_gap ind Hind) as Hind'.
    set (ind' := ind ++ gap) in *. flatten.
    rewrite parseValue_object.
    change (10 :: ind' ++ ?t) with ((10 :: ind') ++ t).
    destruct (skipSpace_first (10 :: ind') (44 :: 10 :: ind')
                (fun m => quote (fst m) ++ 58 :: 32 :: stringify ind' (snd m))
                (k, x) l (10 :: ind ++ 125 :: out))
      as (c & t & Hskip & _ & _ & Hc).
    { by constructor. }
    { eexists _, _. split; [ reflexivity | done ]. }
    rewrite Hskip. destruct (N.eqb_spec c 125); [ done | ].
    rewrite (parseMembers_join ((k, x) :: l) ltac:(done) IH Hplain
               (10 :: ind') ind' _ out fuel);
      [ done | by constructor | done | | lia ].
    change (10 :: ind ++ ?t) with ((10 :: ind) ++ t).
    rewrite skipSpace_blank by (by constructor). done.
Qed.

(** *** The fuel of [JSON_parse] is enough *)

Lemma skipSpace_length s : (length (skipSpace s) <= length s)%nat.
Proof.
  induction s as [ | c s IH ]; cbn [skipSpace]; [ done | ].
  destruct (isJsonSpace c); cbn [length]; lia.
Qed.

Lemma skipSpace_cons s c out :
  skipSpace s = c :: out -> (length out < length s)%nat.
Proof. intros H. pose proof (skipSpace_length s) as Hle. rewrite H in Hle. cbn in Hle. lia. Qed.

Lemma parseStringBody_length s body out :
  parseStringBody s = Some (body, out) -> (length out < length s)%nat.
Proof.
  remember (length s) as n eqn:Hn. revert s body out Hn.
  induction (lt_wf n) as [n _ IH]. intros s body out -> H.
  destruct s as [ | c rest ]; [ done | ]. cbn [parseStringBody] in H.
  destruct (c =? 34); [ injection H as <- <-; cbn; lia | ].
  destruct (c =? 92).
  - destruct rest as [ | e rest1 ]; [ done | ].
    destruct (e =? 117).
    + destruct rest1 as [ | h1 [ | h2 [ | h3 [ | h4 rest2 ] ] ] ]; try done.
      destruct (hexValue h1), (hexValue h2), (hexValue h3), (hexValue h4);
        try done. cbn [mbind option_bind] in H.
      destruct (parseStringBody rest2) as [ [b o] | ] eqn:Hrec; [ | done ].
      cbn in H. injection H as <- <-.
      specialize (IH (length rest2) ltac:(cbn; lia) rest2 b o eq_refl Hrec).
      cbn [length]. lia.
    + match type of H with (?u ≫= _) = _ => destruct u; [ | done ] end.
      cbn [mbind option_bind] in H.
      destruct (parseStringBody rest1) as [ [b o] | ] eqn:Hrec; [ | done ].
      cbn in H. injection H as <- <-.
      specialize (IH (length rest1) ltac:(cbn; lia) rest1 b o eq_refl Hrec).
      cbn [length]. lia.
  - destruct (c <? 32); [ done | ].
    destruct (parseStringBody rest) as [ [b o] | ] eqn:Hrec; [ | done ].
    cbn in H. injection H as <- <-.
    specialize (IH (length rest) ltac:(cbn; lia) rest b o eq_refl Hrec).
    cbn [length]. lia.
Qed.

Lemma spanDigits_length s ds out :
  spanDigits s = (ds, out) -> (length ds + length out = length s)%nat.
Proof.
  revert ds out. induction s as [ | c s IH ]; intros ds out H; cbn [spanDigits] in H.
  - by injection H as <- <-.
  - destruct (isDigit c).
    + destruct (spanDigits s) as [ds' out']. injection H as <- <-.
      specialize (IH ds' out' eq_refl). cbn [length]. lia.
    + by injection H as <- <-.
Qed.

Lemma parseSign_length s sign out :
  parseSign s = (sign, out) -> (length out <= length s)%nat.
Proof.
  destruct s as [ | c t ]; cbn [parseSign]; [ by intros [= <- <-] | ].
  destruct (c =? 45); intros [= <- <-]; cbn [length]; lia.
Qed.

Lemma parseFraction_length s frac out :
  parseFraction s = Some (frac, out) -> (length out <= length s)%nat.
Proof.
  destruct s as [ | c t ]; cbn [parseFraction]; [ by intros [= <- <-] | ].
  destruct (c =? 46); [ | by intros [= <- <-] ].
  destruct (spanDigits t) as [ds o] eqn:Hspan. apply spanDigits_length in Hspan.
  case_bool_decide; [ done | ]. intros [= <- <-]. cbn [length]. lia.
Qed.

Lemma parseExponent_length s exp out :
  parseExponent s = Some (exp, out) -> (length out <= length s)%nat.
Proof.
  destruct s as [ | e t ]; cbn [parseExponent]; [ by intros [= <- <-] | ].
  destruct ((e =? 101) || (e =? 69)); [ | by intros [= <- <-] ].
  assert (forall sign t', (length t' <= length t)%nat ->
            (let '(ds, out) := spanDigits t' in
             if bool_decide (ds = []) then None else Some (e :: sign ++ ds, out))
            = Some (exp, out) -> (length out <= length (e :: t))%nat) as Hrest.
  { intros sign t' Hle. destruct (spanDigits t') as [ds o] eqn:Hspan.
    apply spanDigits_length in Hspan. case_bool_decide; [ done | ].
    intros [= <- <-]. cbn [length]. lia. }
  destruct t as [ | g u ]; [ by apply Hrest | ].
  destruct ((g =? 43) || (g =? 45)); apply Hrest; cbn [length]; lia.
Qed.

Lemma parseNumber_length s lexeme out :
  parseNumber s = Some (lexeme, out) -> (length out < length s)%nat.
Proof.
  unfold parseNumber.
  destruct (parseSign s) as [sign s1] eqn:Hsign. apply parseSign_length in Hsign.
  destruct (spanDigits s1) as [int s2] eqn:Hint. apply spanDigits_length in Hint.
  destruct int as [ | d more ]; [ done | ].
  destruct ((d =? 48) && negb (bool_decide (more = []))); [ done | ].
  destruct (parseFraction s2) as [ [frac s3] | ] eqn:Hfrac; [ | done ].
  apply parseFraction_length in Hfrac. cbn [mbind option_bind].
  destruct (parseExponent s3) as [ [exp s4] | ] eqn:Hexp; [ | done ].
  apply parseExponent_length in Hexp. cbn [mbind option_bind].
  intros [= <- <-]. cbn [length] in Hint. lia.
Qed.

Lemma stripPrefix_length p s out :
  stripPrefix p s = Some out -> (length out <= length s)%nat.
Proof.
  revert s. induction p as [ | a p IH ]; intros [ | b s ] H; cbn in H;
    simplify_eq; try done.
  destruct (a =? b); [ | done ]. apply IH in H. cbn. lia.
Qed.

(** The three parsers consume at least one character. *)
Lemma parse_length fuel :
  (forall s v out, parseValue fuel s = Some (v, out) -> (length out < length s)%nat)
  /\ (forall s l out, parseElements fuel s = Some (l, out) ->
                      (length out < length s)%nat)
  /\ (forall s l out, parseMembers fuel s = Some (l, out) ->
                      (length out < length s)%nat).
Proof.
  induction fuel as [ | fuel (IHv & IHe & IHm) ]; [ done | ]. split_and!.
  - intros s v out. cbn [parseValue].
    destruct (skipSpace s) as [ | c rest ] eqn:Hskip; [ done | ].
    apply skipSpace_cons in Hskip.
    destruct (c =? 34).
    { destruct (parseStringBody rest) as [ [str o] | ] eqn:Hstr; [ | done ].
      apply parseStringBody_length in Hstr. cbn. intros [= <- <-]. lia. }
    destruct (c =? 91).
    { destruct (skipSpace rest) as [ | d o ] eqn:Hskip2; [ done | ].
      apply skipSpace_cons in Hskip2.
      destruct (d =? 93); [ intros [= <- <-]; lia | ].
      destruct (parseElements fuel rest) as [ [l o'] | ] eqn:He; [ | done ].
      apply IHe in He. cbn. intros [= <- <-]. lia. }
    destruct (c =? 123).
    { destruct (skipSpace rest) as [ | d o ] eqn:Hskip2; [ done | ].
      apply skipSpace_cons in Hskip2.
      destruct (d =? 125); [ intros [= <- <-]; lia | ].
      destruct (parseMembers fuel rest) as [ [l o'] | ] eqn:Hm; [ | done ].
      apply IHm in Hm. cbn. intros [= <- <-]. lia. }
    assert (forall p w, (stripPrefix p rest ≫= fun o => Some (w, o)) = Some (v, out) ->
                        (length out < length s)%nat) as Hword.
    { intros p w. destruct (stripPrefix p rest) as [ o | ] eqn:Hp; [ | done ].
      apply stripPrefix_length in Hp. cbn. intros [= <- <-]. lia. }
    destruct (c =? 116); [ apply Hword | ].
    destruct (c =? 102); [ apply Hword | ].
    destruct (c =? 110); [ apply Hword | ].
    destruct (parseNumber (c :: rest)) as [ [lexeme o] | ] eqn:Hnum; [ | done ].
    apply parseNumber_length in Hnum. cbn in *. intros [= <- <-]. lia.
  - intros s l out. rewrite parseElements_S.
    destruct (parseValue fuel s) as [ [v o] | ] eqn:Hv; [ | done ].
    apply IHv in Hv. cbn [mbind option_bind].
    destruct (skipSpace o) as [ | d o' ] eqn:Hskip; [ done | ].
    apply skipSpace_cons in Hskip.
    destruct (d =? 44).
    + destruct (parseElements fuel o') as [ [l' o''] | ] eqn:He; [ | done ].
      apply IHe in He. cbn. intros [= <- <-]. lia.
    + destruct (d =? 93); [ | done ]. intros [= <- <-]. lia.
  - intros s l out. rewrite parseMembers_S.
    destruct (skipSpace s) as [ | q s1 ] eqn:Hskip; [ done | ].
    apply skipSpace_cons in Hskip. destruct (q =? 34); [ | done ].
    destruct (parseStringBody s1) as [ [key s2] | ] eqn:Hkey; [ | done ].
    apply parseStringBody_length in Hkey. cbn [mbind option_bind].
    destruct (skipSpace s2) as [ | colon s3 ] eqn:Hskip2; [ done | ].
    apply skipSpace_cons in Hskip2. destruct (colon =? 58); [ | done ].
    destruct (parseValue fuel s3) as [ [v o] | ] eqn:Hv; [ | done ].
    apply IHv in Hv. cbn [mbind option_bind].
    destruct (skipSpace o) as [ | d o' ] eqn:Hskip3; [ done | ].
    apply skipSpace_cons in Hskip3.
    destruct (d =? 44).
    + destruct (parseMembers fuel o') as [ [l' o''] | ] eqn:Hm; [ | done ].
      apply IHm in Hm. cbn. intros [= <- <-]. lia.
    + destruct (d =? 125); [ | done ]. intros [= <- <-]. lia.
Qed.

(** A parse that succeeds also succeeds, with the same result, with more
    fuel. *)
Lemma parse_mono fuel :
  (forall s r fuel', parseValue fuel s = Some r -> (fuel <= fuel')%nat ->
                     parseValue fuel' s = Some r)
  /\ (forall s r fuel', parseElements fuel s = Some r -> (fuel <= fuel')%nat ->
                        parseElements fuel' s = Some r)
  /\ (forall s r fuel', parseMembers fuel s = Some r -> (fuel <= fuel')%nat ->
                        parseMembers fuel' s = Some r).
Proof.
  induction fuel as [ | fuel (IHv & IHe & IHm) ]; [ done | ]. split_and!.
  - intros s r [ | fuel' ] H Hle; [ lia | ]. cbn [parseValue] in *.
    destruct (skipSpace s) as [ | c rest ]; [ done | ].
    repeat case_match; try done; simplify_option_eq;
      repeat match goal with
             | H : parseElements fuel _ = Some _ |- _ =>
                 apply (IHe _ _ fuel') in H; [ | lia ]
             | H : parseMembers fuel _ = Some _ |- _ =>
                 apply (IHm _ _ fuel') in H; [ | lia ]
             end; simplify_option_eq; done.
  - intros s r [ | fuel' ] H Hle; [ lia | ]. rewrite parseElements_S in *.
    destruct (parseValue fuel s) as [ [v o] | ] eqn:Hv; [ | done ].
    rewrite (IHv _ _ fuel' Hv) by lia. cbn [mbind option_bind] in *.
    destruct (skipSpace o) as [ | d o' ]; [ done | ].
    destruct (d =? 44); [ | done ].
    destruct (parseElements fuel o') as [ [l' o''] | ] eqn:He; [ | done ].
    by rewrite (IHe _ _ fuel' He) by lia.
  - intros s r [ | fuel' ] H Hle; [ lia | ]. rewrite parseMembers_S in *.
    destruct (skipSpace s) as [ | q s1 ]; [ done | ].
    destruct (q =? 34); [ | done ].
    destruct (parseStringBody s1) as [ [key s2] | ]; [ | done ].
    cbn [mbind option_bind] in *.
    destruct (skipSpace s2) as [ | colon s3 ]; [ done | ].
    destruct (colon =? 58); [ | done ].
    destruct (parseValue fuel s3) as [ [v o] | ] eqn:Hv; [ | done ].
    rewrite (IHv _ _ fuel' Hv) by lia. cbn [mbind option_bind] in *.
    destruct (skipSpace o) as [ | d o' ]; [ done | ].
    destruct (d =? 44); [ | done ].
    destruct (parseMembers fuel o') as [ [l' o''] | ] eqn:Hm; [ | done ].
    by rewrite (IHm _ _ fuel' Hm) by lia.
Qed.

(** What any amount of fuel parses, the fuel computed from the length of
    the text parses. *)
Lemma parse_enough fuel :
  (forall s r, parseValue fuel s = Some r ->
               parseValue (2 * length s + 1) s = Some r)
  /\ (forall s r, parseElements fuel s = Some r ->
                  parseElements (2 * length s + 2) s = Some r)
  /\ (forall s r, parseMembers fuel s = Some r ->
                  parseMembers (2 * length s + 2) s = Some r).
Proof.
  induction fuel as [ | fuel (IHv & IHe & IHm) ]; [ done | ].
  assert (forall s r big, parseValue fuel s = Some r ->
            (2 * length s + 1 <= big)%nat -> parseValue big s = Some r) as Hv.
  { intros s r big H Hbig. apply IHv in H.
    by apply (proj1 (parse_mono _) _ _ big) in H. }
  assert (forall s r big, parseElements fuel s = Some r ->
            (2 * length s + 2 <= big)%nat -> parseElements big s = Some r) as He.
  { intros s r big H Hbig. apply IHe in H.
    by apply (proj1 (proj2 (parse_mono _)) _ _ big) in H. }
  assert (forall s r big, parseMembers fuel s = Some r ->
            (2 * length s + 2 <= big)%nat -> parseMembers big s = Some r) as Hm.
  { intros s r big H Hbig. apply IHm in H.
    by apply (proj2 (proj2 (parse_mono _)) _ _ big) in H. }
  clear IHv IHe IHm. split_and!.
  - intros s r. replace (2 * length s + 1)%nat with (S (2 * length s)) by lia.
    cbn [parseValue].
    destruct (skipSpace s) as [ | c rest ] eqn:Hskip; [ done | ].
    apply skipSpace_cons in Hskip.
    destruct (c =? 34); [ done | ].
    destruct (c =? 91).
    { destruct (skipSpace rest) as [ | d o ]; [ done | ].
      destruct (d =? 93); [ done | ].
      destruct (parseElements fuel rest) as [ x | ] eqn:Hsub; [ | done ].
      by rewrite (He _ _ (2 * length s)%nat Hsub) by lia. }
    destruct (c =? 123); [ | done ].
    destruct (skipSpace rest) as [ | d o ]; [ done | ].
    destruct (d =? 125); [ done | ].
    destruct (parseMembers fuel rest) as [ x | ] eqn:Hsub; [ | done ].
    by rewrite (Hm _ _ (2 * length s)%nat Hsub) by lia.
  - intros s r. replace (2 * length s + 2)%nat with (S (2 * length s + 1)) by lia.
    rewrite !parseElements_S.
    destruct (parseValue fuel s) as [ [v o] | ] eqn:Hsub; [ | done ].
    rewrite (Hv _ _ (2 * length s + 1)%nat Hsub) by lia.
    apply (proj1 (parse_length _)) in Hsub. cbn [mbind option_bind].
    destruct (skipSpace o) as [ | d o' ] eqn:Hskip; [ done | ].
    apply skipSpace_cons in Hskip.
    destruct (d =? 44); [ | done ].
    destruct (parseElements fuel o') as [ x | ] eqn:Hrest; [ | done ].
    by rewrite (He _ _ (2 * length s + 1)%nat Hrest) by lia.
  - intros s r. replace (2 * length s + 2)%nat with (S (2 * length s + 1)) by lia.
    rewrite !parseMembers_S.
    destruct (skipSpace s) as [ | q s1 ] eqn:Hskip; [ done | ].
    apply skipSpace_cons in Hskip. destruct (q =? 34); [ | done ].
    destruct (parseStringBody s1) as [ [key s2] | ] eqn:Hkey; [ | done ].
    apply parseStringBody_length in Hkey. cbn [mbind option_bind].
    destruct (skipSpace s2) as [ | colon s3 ] eqn:Hskip2; [ done | ].
    apply skipSpace_cons in Hskip2. destruct (colon =? 58); [ | done ].
    destruct (parseValue fuel s3) as [ [v o] | ] eqn:Hsub; [ | done ].
    rewrite (Hv _ _ (2 * length s + 1)%nat Hsub) by lia.
    apply (proj1 (parse_length _)) in Hsub. cbn [mbind option_bind].
    destruct (skipSpace o) as [ | d o' ] eqn:Hskip3; [ done | ].
    apply skipSpace_cons in Hskip3.
    destruct (d =? 44); [ | done ].
    destruct (parseMembers fuel o') as [ x | ] eqn:Hrest; [ | done ].
    by rewrite (Hm _ _ (2 * length s + 1)%nat Hrest) by lia.
Qed.

(** [JSON_parse] never fails for lack of fuel: a value that some amount
    of fuel reads from the whole text is the value it returns. *)
Theorem JSON_parse_fuel text fuel v out :
  parseValue fuel text = Some (v, out) -> skipSpace out = [] ->
  JSON_parse text = Some v.
Proof.
  intros Hparse Hout. unfold JSON_parse.
  apply (proj1 (parse_enough _)) in Hparse.
  apply (proj1 (parse_mono _) _ _ (2 * length text + 2)%nat) in Hparse; [ | lia ].
  rewrite Hparse. cbn [mbind option_bind]. by rewrite Hout.
Qed.

(** [JSON.parse] inverts [JSON.stringify (_, null, 2)] on values without
    numbers. *)
Theorem JSON_parse_stringify v :
  plain v = true -> JSON_parse (JSON_stringify v) = Some v.
Proof.
  intros Hplain. unfold JSON_stringify.
  apply (JSON_parse_fuel _ (need v) v []); [ | done ].
  rewrite <- (app_nil_r (stringify [] v)) at 1.
  by apply parse_stringify; [ | constructor | ].
Qed.

(** *** What is printed is well-formed UTF-16 *)

Lemma wellFormed_low s :
  Forall (fun c => c < 55296) s -> wellFormed s = true.
Proof.
  induction 1 as [ | c s Hc _ IH ]; [ done | ]. cbn [wellFormed].
  unfold isHighSurrogate, isLowSurrogate.
  replace (55296 <=? c) with false by (symmetry; apply N.leb_gt; lia).
  replace (56320 <=? c) with false by (symmetry; apply N.leb_gt; lia).
  done.
Qed.

Lemma wellFormed_app a b :
  wellFormed a = true -> wellFormed b = true -> wellFormed (a ++ b) = true.
Proof.
  remember (length a) as n eqn:Hn. revert a Hn.
  induction (lt_wf n) as [n _ IH]. intros a -> Ha Hb.
  destruct a as [ | c a ]; [ done | ]. cbn [wellFormed app] in *.
  destruct (isHighSurrogate c).
  - destruct a as [ | d a ]; [ done | ]. cbn [app].
    apply andb_true_iff in Ha as [Hd Ha]. rewrite Hd. cbn [andb].
    apply (IH (length a)); [ cbn; lia | done .. ].
  - apply andb_true_iff in Ha as [Hc Ha]. rewrite Hc. cbn [andb].
    apply (IH (length a)); [ cbn; lia | done .. ].
Qed.

Lemma wellFormed_blank s : blank s -> wellFormed s = true.
Proof.
  intros H. apply wellFormed_low.
  induction H as [ | c s Hc _ IH ]; constructor; [ | done ].
  unfold isJsonSpace in Hc.
  repeat (apply orb_true_iff in Hc as [ Hc | Hc ]);
    apply N.eqb_eq in Hc; subst c; done.
Qed.

Lemma wellFormed_join sep parts :
  wellFormed sep = true -> Forall (fun p => wellFormed p = true) parts ->
  wellFormed (join sep parts) = true.
Proof.
  intros Hsep. induction 1 as [ | p parts Hp Hparts IH ]; [ done | ].
  destruct parts as [ | q parts ]; [ done | ].
  change (join sep (p :: q :: parts)) with (p ++ sep ++ join sep (q :: parts)).
  by repeat apply wellFormed_app.
Qed.

Lemma hexDigit_low d : d < 16 -> hexDigit d < 55296.
Proof. intros Hd. unfold hexDigit. destruct (d <? 10); lia. Qed.

Lemma wellFormed_quoteUnit c : wellFormed (quoteUnit c) = true.
Proof.
  unfold quoteUnit.
  repeat match goal with
         | |- context [N.eqb c ?k] => destruct (N.eqb c k); [ done | ]
         end.
  destruct ((c <? 32) || isHighSurrogate c || isLowSurrogate c) eqn:Hesc.
  - apply wellFormed_low. unfold unicodeEscape.
    repeat constructor; apply hexDigit_low, N.mod_lt; lia.
  - apply orb_false_iff in Hesc as [Hesc Hlow].
    apply orb_false_iff in Hesc as [_ Hhigh].
    cbn [wellFormed]. by rewrite Hhigh, Hlow.
Qed.

Lemma wellFormed_quoteBody s : wellFormed (quoteBody s) = true.
Proof.
  remember (length s) as n eqn:Hn. revert s Hn.
  induction (lt_wf n) as [n _ IH]. intros s ->.
  destruct s as [ | c [ | d rest ] ]; [ done | apply wellFormed_quoteUnit | ].
  rewrite quoteBody_cons2.
  destruct (isHighSurrogate c && isLowSurrogate d) eqn:Hpair.
  - apply andb_true_iff in Hpair as [Hc Hd]. cbn [wellFormed].
    rewrite Hc, Hd. cbn [andb]. apply (IH (length rest)); [ cbn; lia | done ].
  - apply wellFormed_app; [ apply wellFormed_quoteUnit | ].
    apply (IH (length (d :: rest))); [ cbn; lia | done ].
Qed.

Lemma wellFormed_quote s : wellFormed (quote s) = true.
Proof.
  unfold quote. change (34 :: ?t) with ([34] ++ t).
  repeat apply wellFormed_app; [ done | apply wellFormed_quoteBody | done ].
Qed.

(** The text of a value without number tokens has no lone surrogate, so
    writing it as UTF-8 and reading it back returns the same text. *)
Theorem wellFormed_stringify v :
  plain v = true ->
  forall ind, blank ind -> wellFormed (stringify ind v) = true.
Proof.
  induction v as [ | b | lexeme | s | l IH | l IH ] using json_ind;
    intros Hplain ind Hind.
  - done.
  - by destruct b.
  - discriminate.
  - apply wellFormed_quote.
  - destruct l as [ | x l ]; [ done | ]. rewrite stringify_array.
    pose proof (wellFormed_blank _ Hind) as Hwf.
    pose proof (wellFormed_blank _ (blank_gap ind Hind)) as Hwf'.
    change (91 :: ?t) with ([91] ++ t). change (10 :: ?t) with ([10] ++ t).
    change (44 :: [10] ++ ?t) with ([44; 10] ++ t).
    repeat apply wellFormed_app; try done.
    apply wellFormed_join; [ by apply wellFormed_app | ].
    cbn [plain] in Hplain. rewrite forallb_forall in Hplain.
    apply Forall_fmap, List.Forall_forall. intros y Hy.
    rewrite List.Forall_forall in IH.
    apply IH; [ done | by apply Hplain | by apply blank_gap ].
  - destruct l as [ | m l ]; [ done | ]. rewrite stringify_object.
    pose proof (wellFormed_blank _ Hind) as Hwf.
    pose proof (wellFormed_blank _ (blank_gap ind Hind)) as Hwf'.
    change (123 :: ?t) with ([123] ++ t). change (10 :: ?t) with ([10] ++ t).
    change (44 :: [10] ++ ?t) with ([44; 10] ++ t).
    repeat apply wellFormed_app; try done.
    apply wellFormed_join; [ by apply wellFormed_app | ].
    cbn [plain] in Hplain. rewrite forallb_forall in Hplain.
    apply Forall_fmap, List.Forall_forall. intros y Hy.
    rewrite List.Forall_forall in IH. cbn [compose].
    change (58 :: 32 :: ?t) with ([58; 32] ++ t).
    repeat apply wellFormed_app;
      first [ done | apply wellFormed_quoteBody
            | apply IH; [ done | by apply Hplain | by apply blank_gap ] ].
Qed.

Lemma isStatus_statusText s : isStatus (statusText s) = Some s.
Proof. by destruct s. Qed.

Lemma isStatus_Some value s : isStatus value = Some s -> statusText s = value.
Proof.
  unfold isStatus. intros H. apply find_some in H as [_ H].
  by apply bool_decide_eq_true in H.
Qed.

Lemma plain_jobsToJSON jobs : plain (jobsToJSON jobs) = true.
Proof.
  unfold jobsToJSON. cbn [plain]. apply forallb_forall. intros v Hv.
  apply in_map_iff in Hv as (j & <- & _).
  unfold jobToJSON. destruct (notes j); reflexivity.
Qed.

Lemma jobOfJSON_jobToJSON j : jobOfJSON (jobToJSON j) = Some j.
Proof.
  destruct j as [i c r s t [ n | ]]; unfold jobToJSON; cbn [app jobOfJSON Model.id
    Model.company Model.role Model.status Model.createdAt Model.notes];
    rewrite !bool_decide_eq_true_2 by done; cbn [andb];
    rewrite isStatus_statusText; done.
Qed.

Lemma jobsOfJSON_jobsToJSON jobs : jobsOfJSON (jobsToJSON jobs) = Some jobs.
Proof.
  unfold jobsOfJSON, jobsToJSON. induction jobs as [ | j jobs IH ]; [ done | ].
  cbn [map mapM]. rewrite jobOfJSON_jobToJSON. cbn [mbind option_bind].
  rewrite IH. done.
Qed.

(** The text that [saveJobs] writes. *)
Lemma wellFormed_jobs jobs :
  wellFormed (JSON_stringify (jobsToJSON jobs)) = true.
Proof. apply wellFormed_stringify; [ apply plain_jobsToJSON | constructor ]. Qed.

End JsonFacts.

(** ** Facts about the process primitives *)

Module ProgramFacts.
Import JsonFacts.

(** Decide the comparisons of string literals that guard [main]. *)
Ltac commands :=
  repeat match goal with
         | |- context [bool_decide (js ?a = js ?b)] =>
             let v := eval vm_compute in (bool_decide (js a = js b)) in
             change (bool_decide (js a = js b)) with v
         | |- context [bool_decide (js ?a = [])] =>
             let v := eval vm_compute in (bool_decide (js a = [])) in
             change (bool_decide (js a = [])) with v
         end.

(** [loadJobs] reads and never changes the world. *)
Lemma loadJobs_eq w : loadJobs w = (stored (file w), w).
Proof.
  unfold loadJobs, stored, bind, existsSync, readFileSync, ret, halt.
  destruct w as [ [ raw | ] out err ]; [ | reflexivity ].
  cbn [file]. rewrite bool_decide_eq_true_2 by (by eexists).
  cbn [negb file].
  destruct (JSON_parse raw) as [ v | ]; [ | reflexivity ].
  by destruct (jobsOfJSON v).
Qed.

Lemma loadJobs_absent w : file w = None -> loadJobs w = (inl [], w).
Proof. intros H. by rewrite loadJobs_eq, H. Qed.

Lemma loadJobs_written jobs w :
  file w = Some (JSON_stringify (jobsToJSON jobs)) -> loadJobs w = (inl jobs, w).
Proof.
  intros H. rewrite loadJobs_eq, H. unfold stored.
  rewrite JSON_parse_stringify by apply plain_jobsToJSON.
  by rewrite jobsOfJSON_jobsToJSON.
Qed.

Lemma loadJobs_same_file w1 w2 jobs :
  file w2 = file w1 -> loadJobs w1 = (inl jobs, w1) -> loadJobs w2 = (inl jobs, w2).
Proof. rewrite !loadJobs_eq. intros -> H. by injection H as ->. Qed.

Lemma saveJobs_eq jobs w :
  saveJobs jobs w = (inl tt, withFile (JSON_stringify (jobsToJSON jobs)) w).
Proof. reflexivity. Qed.

Lemma requireArg_ok v name w :
  trim v <> [] -> requireArg (Some v) name w = (inl v, w).
Proof. intros H. unfold requireArg. by rewrite bool_decide_eq_false_2. Qed.

Lemma requireArg_blank v name w :
  trim v = [] ->
  requireArg (Some v) name w
  = (inr (Exit 1), withErr (js "Missing required argument: " ++ name) w).
Proof. intros H. unfold requireArg. by rewrite bool_decide_eq_true_2. Qed.

Lemma requireArg_absent name w :
  requireArg None name w
  = (inr (Exit 1), withErr (js "Missing required argument: " ++ name) w).
Proof. reflexivity. Qed.

Lemma findIndex_Some {A} (pred : A -> bool) xs idx :
  findIndex pred xs = Some idx ->
  exists x, xs !! idx = Some x /\ pred x = true
            /\ forall j y, xs !! j = Some y -> (j < idx)%nat -> pred y = false.
Proof.
  unfold findIndex. intros H.
  destruct (list_find _ xs) as [ [i x] | ] eqn:Hfind; [ | done ].
  cbn in H. injection H as ->.
  apply list_find_Some in Hfind as (Hx & Hp & Hbefore).
  exists x. split_and!; [ done .. | ].
  intros j y Hy Hj. specialize (Hbefore j y Hy Hj). by destruct (pred y).
Qed.

Lemma findIndex_None {A} (pred : A -> bool) xs :
  findIndex pred xs = None <-> forall x, x ∈ xs -> pred x = false.
Proof.
  unfold findIndex. destruct (list_find _ xs) as [ [i x] | ] eqn:Hfind.
  - cbn. split; [ done | ]. intros H.
    apply list_find_Some in Hfind as (Hx & Hp & _).
    rewrite H in Hp; [ done | ]. by eapply list_elem_of_lookup_2.
  - cbn. split; [ | done ]. intros _ x Hx.
    apply list_find_None in Hfind. rewrite Forall_forall in Hfind.
    specialize (Hfind x). destruct (pred x); [ | done ].
    exfalso. apply Hfind; [ | done ]. by apply list_elem_of_In.
Qed.

Lemma isStatus_not_blank value s : isStatus value = Some s -> trim value <> [].
Proof. intros H. apply isStatus_Some in H as <-. by destruct s. Qed.

(** *** The [update] command, case by case *)

Section Update.
Context (env : Env) (w : World) (jobs : list JobApplication).
Hypothesis Hload : loadJobs w = (inl jobs, w).

Ltac enter :=
  unfold run, main; unfold bind at 1; rewrite Hload;
  cbn [lookup list_lookup drop]; commands; cbn [orb].

Lemma update_without_id :
  run env [js "update"] w
  = (Some 1%Z, withErr (js "Missing required argument: id") w).
Proof. enter. reflexivity. Qed.

Lemma update_blank_id X rest :
  trim X = [] ->
  run env (js "update" :: X :: rest) w
  = (Some 1%Z, withErr (js "Missing required argument: id") w).
Proof. intros HX. enter. unfold bind at 1. by rewrite requireArg_blank. Qed.

Lemma update_without_status X :
  trim X <> [] ->
  run env [js "update"; X] w
  = (Some 1%Z, withErr (js "Missing required argument: status") w).
Proof. intros HX. enter. unfold bind at 1. by rewrite requireArg_ok. Qed.

Lemma update_blank_status X s rest :
  trim X <> [] -> trim s = [] ->
  run env (js "update" :: X :: s :: rest) w
  = (Some 1%Z, withErr (js "Missing required argument: status") w).
Proof.
  intros HX Hs. enter. unfold bind at 1. rewrite requireArg_ok by done.
  unfold bind at 1. by rewrite requireArg_blank.
Qed.

Lemma update_invalid_status X s rest :
  trim X <> [] -> trim s <> [] -> isStatus s = None ->
  run env (js "update" :: X :: s :: rest) w
  = (Some 1%Z, withOut helpText (withErr (js "Invalid status: " ++ s) w)).
Proof.
  intros HX Hs Hst. enter. unfold bind at 1. rewrite requireArg_ok by done.
  unfold bind at 1. rewrite requireArg_ok by done. by rewrite Hst.
Qed.

Lemma update_not_found X s st rest :
  trim X <> [] -> isStatus s = Some st ->
  findIndex (fun j => bool_decide (id j = X)) jobs = None ->
  run env (js "update" :: X :: s :: rest) w
  = (Some 1%Z, withErr (js "No job found with id: " ++ X) w).
Proof.
  intros HX Hst Hidx. enter. unfold bind at 1. rewrite requireArg_ok by done.
  unfold bind at 1. rewrite requireArg_ok by (by eapply isStatus_not_blank).
  by rewrite Hst, Hidx.
Qed.

Lemma update_found X s st rest idx :
  trim X <> [] -> isStatus s = Some st ->
  findIndex (fun j => bool_decide (id j = X)) jobs = Some idx ->
  run env (js "update" :: X :: s :: rest) w
  = (Some 0%Z,
     withOut ([9989] ++ js " Updated " ++ X ++ js " " ++ [8594] ++ js " " ++ s)
       (withFile (JSON_stringify (jobsToJSON (alter (setStatus st) idx jobs))) w)).
Proof.
  intros HX Hst Hidx. enter. unfold bind at 1. rewrite requireArg_ok by done.
  unfold bind at 1. rewrite requireArg_ok by (by eapply isStatus_not_blank).
  by rewrite Hst, Hidx.
Qed.

(** Whatever the arguments, [update] either leaves the file alone or
    rewrites it with the status of one entry replaced. *)
Lemma update_outcome args :
  exists code w',
    run env (js "update" :: args) w = (code, w')
    /\ (file w' = file w
        \/ exists X st idx,
             args !! 0%nat = Some X /\ trim X <> []
             /\ findIndex (fun j => bool_decide (id j = X)) jobs = Some idx
             /\ file w' = Some (JSON_stringify
                                 (jobsToJSON (alter (setStatus st) idx jobs)))).
Proof.
  destruct args as [ | X [ | s rest ] ].
  - rewrite update_without_id. eauto.
  - destruct (decide (trim X = [])) as [ HX | HX ].
    + rewrite update_blank_id by done. eauto.
    + rewrite update_without_status by done. eauto.
  - destruct (decide (trim X = [])) as [ HX | HX ].
    { rewrite update_blank_id by done. eauto. }
    destruct (decide (trim s = [])) as [ Hs | Hs ].
    { rewrite update_blank_status by done. eauto. }
    destruct (isStatus s) as [ st | ] eqn:Hst.
    2: { rewrite update_invalid_status by done. eauto. }
    destruct (findIndex (fun j => bool_decide (id j = X)) jobs) as [ idx | ] eqn:Hidx.
    + erewrite update_found by done. eexists _, _. split; [ done | ].
      right. by exists X, st, idx.
    + erewrite update_not_found by done. eauto.
Qed.

End Update.

(** *** The [add] command *)

Section Add.
Context (env : Env) (w : World) (jobs : list JobApplication).
Hypothesis Hload : loadJobs w = (inl jobs, w).

Ltac enter :=
  unfold run, main; unfold bind at 1; rewrite Hload;
  cbn [lookup list_lookup drop]; commands; cbn [orb].

Lemma add_without_company :
  run env [js "add"] w
  = (Some 1%Z, withErr (js "Missing required argument: company") w).
Proof. enter. reflexivity. Qed.

Lemma add_blank_company company rest :
  trim company = [] ->
  run env (js "add" :: company :: rest) w
  = (Some 1%Z, withErr (js "Missing required argument: company") w).
Proof. intros Hc. enter. unfold bind at 1. by rewrite requireArg_blank. Qed.

Lemma add_without_role company :
  trim company <> [] ->
  run env [js "add"; company] w
  = (Some 1%Z, withErr (js "Missing required argument: role") w).
Proof. intros Hc. enter. unfold bind at 1. by rewrite requireArg_ok. Qed.

Lemma add_blank_role company role rest :
  trim company <> [] -> trim role = [] ->
  run env (js "add" :: company :: role :: rest) w
  = (Some 1%Z, withErr (js "Missing required argument: role") w).
Proof.
  intros Hc Hr. enter. unfold bind at 1. rewrite requireArg_ok by done.
  unfold bind at 1. by rewrite requireArg_blank.
Qed.

Lemma add_created company role rest :
  trim company <> [] -> trim role <> [] ->
  let newJob := added env company role rest in
  run env (js "add" :: company :: role :: rest) w
  = (Some 0%Z,
     withOut (js "   id: " ++ id newJob)
       (withOut ([9989] ++ js " Added: " ++ company ++ js " " ++ [8212]
                 ++ js " " ++ role ++ js " (" ++ statusText (status newJob)
                 ++ js ")")
          (withFile (JSON_stringify (jobsToJSON (newJob :: jobs))) w))).
Proof.
  intros Hc Hr newJob. enter. unfold bind at 1. rewrite requireArg_ok by done.
  unfold bind at 1. rewrite requireArg_ok by done.
  subst newJob. unfold added. by destruct (statusToken (rest !! 0%nat)).
Qed.

(** Whatever the arguments, [add] either leaves the file alone or writes
    the collection with one entry in front. *)
Lemma add_outcome args :
  exists code w',
    run env (js "add" :: args) w = (code, w')
    /\ (file w' = file w
        \/ exists newJob,
             file w' = Some (JSON_stringify (jobsToJSON (newJob :: jobs)))).
Proof.
  destruct args as [ | company [ | role rest ] ].
  - rewrite add_without_company. eauto.
  - destruct (decide (trim company = [])) as [ Hc | Hc ].
    + rewrite add_blank_company by done. eauto.
    + rewrite add_without_role by done. eauto.
  - destruct (decide (trim company = [])) as [ Hc | Hc ].
    { rewrite add_blank_company by done. eauto. }
    destruct (decide (trim role = [])) as [ Hr | Hr ].
    { rewrite add_blank_role by done. eauto. }
    rewrite add_created by done. eexists _, _. split; [ done | ].
    right. by eexists.
Qed.

End Add.

(** *** The [remove] command *)

Section Remove.
Context (env : Env) (w : World) (jobs : list JobApplication).
Hypothesis Hload : loadJobs w = (inl jobs, w).

Ltac enter :=
  unfold run, main; unfold bind at 1; rewrite Hload;
  cbn [lookup list_lookup drop]; commands; cbn [orb].

Lemma remove_without_id :
  run env [js "remove"] w
  = (Some 1%Z, withErr (js "Missing required argument: id") w).
Proof. enter. reflexivity. Qed.

Lemma remove_blank_id X rest :
  trim X = [] ->
  run env (js "remove" :: X :: rest) w
  = (Some 1%Z, withErr (js "Missing required argument: id") w).
Proof. intros HX. enter. unfold bind at 1. by rewrite requireArg_blank. Qed.

Lemma remove_not_found X rest :
  trim X <> [] ->
  length (filter (fun j => id j <> X) jobs) = length jobs ->
  run env (js "remove" :: X :: rest) w
  = (Some 1%Z, withErr (js "No job found with id: " ++ X) w).
Proof.
  intros HX Hlen. enter. unfold bind at 1. rewrite requireArg_ok by done.
  by rewrite bool_decide_eq_true_2.
Qed.

Lemma remove_found X rest :
  trim X <> [] ->
  length (filter (fun j => id j <> X) jobs) <> length jobs ->
  run env (js "remove" :: X :: rest) w
  = (Some 0%Z,
     withOut ([55357; 56785; 65039] ++ js " Removed " ++ X)
       (withFile (JSON_stringify
                    (jobsToJSON (filter (fun j => id j <> X) jobs))) w)).
Proof.
  intros HX Hlen. enter. unfold bind at 1. rewrite requireArg_ok by done.
  by rewrite bool_decide_eq_false_2.
Qed.

Lemma remove_outcome args :
  exists code w',
    run env (js "remove" :: args) w = (code, w')
    /\ (file w' = file w
        \/ exists X,
             args !! 0%nat = Some X /\ trim X <> []
             /\ file w' = Some (JSON_stringify
                                 (jobsToJSON (filter (fun j => id j <> X) jobs)))).
Proof.
  destruct args as [ | X rest ].
  - rewrite remove_without_id. eauto.
  - destruct (decide (trim X = [])) as [ HX | HX ].
    { rewrite remove_blank_id by done. eauto. }
    destruct (decide (length (filter (fun j => id j <> X) jobs) = length jobs))
      as [ Hlen | Hlen ].
    + rewrite remove_not_found by done. eauto.
    + rewrite remove_found by done. eexists _, _. split; [ done | ].
      right. by exists X.
Qed.

End Remove.

(** *** The [list] command on an empty collection *)

Lemma list_empty env args w :
  loadJobs w = (inl [], w) ->
  run env (js "list" :: args) w = (Some 0%Z, withOut noJobsText w).
Proof.
  intros Hload. unfold run, main. unfold bind at 1. rewrite Hload.
  cbn [lookup list_lookup drop]. commands. reflexivity.
Qed.

(** *** Lists *)

Lemma filter_length_eq {A} (P : A -> Prop) `{!forall x, Decision (P x)} l :
  length (filter P l) = length l <-> Forall P l.
Proof.
  split.
  - induction l as [ | x l IH ]; [ constructor | ].
    rewrite filter_cons. pose proof (length_filter P l) as Hle.
    destruct (decide (P x)); cbn [length]; intros Hlen.
    + constructor; [ done | apply IH; lia ].
    + lia.
  - induction 1 as [ | x l Hx _ IH ]; [ done | ].
    rewrite filter_cons_True by done. cbn [length]. by rewrite IH.
Qed.

Lemma absent_filter X (jobs : list JobApplication) :
  X ∉ map id jobs <-> Forall (fun j => id j <> X) jobs.
Proof.
  rewrite List.Forall_forall, list_elem_of_In, in_map_iff. split.
  - intros H j Hj Heq. apply H. by exists j.
  - intros H (j & Heq & Hj). by apply (H j).
Qed.

(** *** Commands that do not write *)

Lemma keepsFile_ret {A} (a : A) : keepsFile (ret a).
Proof. by intros w. Qed.

Lemma keepsFile_halt {A} h : keepsFile (@halt A h).
Proof. by intros w. Qed.

Lemma keepsFile_console_log line : keepsFile (console_log line).
Proof. by intros w. Qed.

Lemma keepsFile_console_error line : keepsFile (console_error line).
Proof. by intros w. Qed.

Lemma keepsFile_bind {A B} (m : Proc A) (k : A -> Proc B) :
  keepsFile m -> (forall a, keepsFile (k a)) -> keepsFile (bind m k).
Proof.
  intros Hm Hk w. unfold bind. specialize (Hm w).
  destruct (m w) as [ [ a | h ] w1 ]; cbn [snd] in *; [ | done ].
  by rewrite Hk.
Qed.

Lemma keepsFile_forOf {A} (xs : list A) body :
  (forall x, keepsFile (body x)) -> keepsFile (forOf xs body).
Proof.
  intros Hbody. induction xs as [ | x xs IH ]; cbn [forOf].
  - apply keepsFile_ret.
  - apply keepsFile_bind; [ apply Hbody | by intros _ ].
Qed.

Create HintDb keeps.

#[local] Hint Resolve keepsFile_ret keepsFile_halt keepsFile_console_log
  keepsFile_console_error : keeps.

(** [list], [help], no command and unknown commands never write. *)
Lemma other_commands_keep_file env argv w jobs :
  loadJobs w = (inl jobs, w) ->
  (forall command, argv !! 0%nat = Some command ->
                   command ∉ [js "add"; js "update"; js "remove"]) ->
  file (snd (run env argv w)) = file w.
Proof.
  intros Hload Hother. unfold run.
  destruct (main env argv w) as [r w'] eqn:Hmain. cbn [snd].
  change w' with (snd (r, w')). rewrite <- Hmain. clear Hmain.
  unfold main. unfold bind at 1. rewrite Hload.
  destruct argv as [ | command args ]; cbn [lookup list_lookup drop].
  { apply keepsFile_console_log. }
  specialize (Hother command eq_refl).
  destruct (bool_decide (command = []) || bool_decide (command = js "help"));
    [ apply keepsFile_console_log | ].
  rewrite !(bool_decide_eq_false_2 (command = js "add")),
          !(bool_decide_eq_false_2 (command = js "update")),
          !(bool_decide_eq_false_2 (command = js "remove"))
    by (intros ->; apply Hother; repeat constructor).
  destruct (bool_decide (command = js "list")).
  - destruct (bool_decide (length jobs = 0%nat)); [ apply keepsFile_console_log | ].
    apply keepsFile_bind; [ apply keepsFile_console_log | intros _ ].
    apply keepsFile_forOf. intros j.
    repeat (apply keepsFile_bind; [ auto with keeps | intros _ ]);
      try (destruct (notes j) as [ [ | ? ? ] | ]); auto with keeps.
  - apply keepsFile_bind; [ apply keepsFile_console_error | intros _ ].
    apply keepsFile_console_log.
Qed.

End ProgramFacts.

(** ** The properties of the specification *)

Module Claims.
Import JsonFacts ProgramFacts.

(** Enter [main] with the collection that [loadJobs] returns. *)
Ltac enter Hload :=
  unfold run, main; unfold bind at 1; rewrite Hload;
  cbn [lookup list_lookup drop]; commands; cbn [orb].

(** C1 (the code departs from the claim).  For every invocation whose
    first token is non-empty and is none of add, list, update, remove,
    help, and whose store loads, the program prints the error line on
    standard error and the usage help on standard output, and then [main]
    returns: the exit status is 0, not the non-zero status of the claim. *)
Theorem unknown_command_exits_zero env command args w jobs :
  loadJobs w = (inl jobs, w) ->
  command <> [] ->
  command ∉ [js "add"; js "list"; js "update"; js "remove"; js "help"] ->
  run env (command :: args) w
  = (Some 0%Z, withOut helpText (withErr (js "Unknown command: " ++ command) w)).
Proof.
  intros Hload Hne Hcmd. enter Hload.
  rewrite !(bool_decide_eq_false_2 (command = _)); [ reflexivity | .. ];
    intros ->; first [ done | apply Hcmd; repeat constructor ].
Qed.

Lemma unknown_command_exits_zero_witness :
  run env0 [js "deploy"] fresh
  = (Some 0%Z, {| file := None; stdout := [helpText];
                  stderr := [js "Unknown command: deploy"] |}).
Proof.
  apply (unknown_command_exits_zero env0 (js "deploy") [] fresh []);
    [ reflexivity | discriminate | ].
  refine (bool_decide_eq_false_1 _ _). vm_compute. reflexivity.
Defined.

Lemma sameButStatus_refl j : sameButStatus j j.
Proof. by repeat split. Qed.

Lemma sameButStatus_setStatus st j : sameButStatus j (setStatus st j).
Proof. by repeat split. Qed.

Lemma found_index X (jobs : list JobApplication) :
  X ∈ map id jobs ->
  exists idx j,
    findIndex (fun j => bool_decide (id j = X)) jobs = Some idx
    /\ jobs !! idx = Some j /\ id j = X.
Proof.
  intros HX.
  destruct (findIndex (fun j => bool_decide (id j = X)) jobs) as [ idx | ] eqn:Hidx.
  - destruct (findIndex_Some _ _ _ Hidx) as (j & Hj & Hid & _).
    apply bool_decide_eq_true in Hid. by exists idx, j.
  - exfalso. apply list_elem_of_In, in_map_iff in HX as (j & Hid & Hj).
    rewrite findIndex_None in Hidx.
    specialize (Hidx j ltac:(by apply list_elem_of_In)).
    by apply bool_decide_eq_false in Hidx.
Qed.

(** C2.  For every collection that has an entry with id [X] and every
    valid status, [update X status] changes nothing but the status of one
    entry with id [X] (the first): every entry keeps its id, company,
    role, createdAt and notes and its position, every other entry is
    identical, and the length is unchanged.  When the id token passes the
    argument check the run succeeds, the entry has the new status and the
    collection is persisted. *)
Theorem update_changes_only_status env X s st rest w jobs :
  loadJobs w = (inl jobs, w) ->
  X ∈ map id jobs ->
  isStatus s = Some st ->
  exists code w' jobs' idx,
    run env (js "update" :: X :: s :: rest) w = (code, w')
    /\ loadJobs w' = (inl jobs', w')
    /\ findIndex (fun j => bool_decide (id j = X)) jobs = Some idx
    /\ id <$> jobs !! idx = Some X
    /\ length jobs' = length jobs
    /\ (forall i j, jobs !! i = Some j ->
          exists j', jobs' !! i = Some j' /\ sameButStatus j j'
                     /\ (i <> idx -> j' = j))
    /\ (trim X <> [] ->
        code = Some 0%Z
        /\ status <$> jobs' !! idx = Some st
        /\ file w' = Some (JSON_stringify (jobsToJSON jobs'))).
Proof.
  intros Hload HX Hst.
  destruct (found_index X jobs HX) as (idx & target & Hidx & Htarget & Hid).
  destruct (decide (trim X = [])) as [ Hblank | Hblank ].
  - rewrite (update_blank_id env w jobs Hload) by done.
    eexists _, _, jobs, idx. split_and!; [ done | | done | | done | | done ].
    + by apply (loadJobs_same_file w).
    + by rewrite Htarget, <- Hid.
    + intros i j Hj. exists j. split_and!; [ done | apply sameButStatus_refl | done ].
  - rewrite (update_found env w jobs Hload X s st rest idx) by done.
    eexists _, _, (alter (setStatus st) idx jobs), idx.
    split_and!; [ done | | done | | | | ].
    + by apply loadJobs_written.
    + by rewrite Htarget, <- Hid.
    + apply length_alter.
    + intros i j Hj. destruct (decide (i = idx)) as [ -> | Hne ].
      * exists (setStatus st j). rewrite list_lookup_alter_eq, Hj.
        split_and!; [ done | apply sameButStatus_setStatus | intros Hne; by destruct Hne ].
      * exists j. rewrite list_lookup_alter_ne by done.
        split_and!; [ done | apply sameButStatus_refl | done ].
    + intros _. rewrite list_lookup_alter_eq, Htarget. done.
Qed.

Lemma update_changes_only_status_witness :
  exists code w' jobs' idx,
    run env0 [js "update"; js "1700000000000-ab12cd"; js "offer"]
        (storeOf [globex; acme]) = (code, w')
    /\ loadJobs w' = (inl jobs', w')
    /\ findIndex (fun j => bool_decide (id j = js "1700000000000-ab12cd"))
                 [globex; acme] = Some idx
    /\ id <$> [globex; acme] !! idx = Some (js "1700000000000-ab12cd")
    /\ length jobs' = length [globex; acme]
    /\ (forall i j, [globex; acme] !! i = Some j ->
          exists j', jobs' !! i = Some j' /\ sameButStatus j j'
                     /\ (i <> idx -> j' = j))
    /\ (trim (js "1700000000000-ab12cd") <> [] ->
        code = Some 0%Z
        /\ status <$> jobs' !! idx = Some offer
        /\ file w' = Some (JSON_stringify (jobsToJSON jobs'))).
Proof.
  apply (update_changes_only_status env0 (js "1700000000000-ab12cd")
           (js "offer") offer [] (storeOf [globex; acme]) [globex; acme]).
  - vm_compute. reflexivity.
  - refine (bool_decide_eq_true_1 _ _). vm_compute. reflexivity.
  - vm_compute. reflexivity.
Defined.

(** C3, as stated, fails for an id token that is blank: on an empty store
    [update " " applied] names no stored id and gives a valid status, yet
    the run stops in the argument check with the missing-argument
    message. *)
Lemma update_blank_id_not_reported :
  loadJobs fresh = (inl [], fresh)
  /\ (js " " ∉ map id (@nil JobApplication))
  /\ isStatus (js "applied") = Some applied
  /\ run env0 [js "update"; js " "; js "applied"] fresh
     = (Some 1%Z, {| file := None; stdout := [];
                     stderr := [js "Missing required argument: id"] |})
  /\ ~ reportsNoJob env0 (js " ") (js "applied") fresh.
Proof.
  split_and!; [ reflexivity | by intros ?%elem_of_nil | reflexivity | reflexivity | ].
  intros (code & w' & Hrun & _ & Herr & _).
  vm_compute in Hrun. injection Hrun as <- <-. vm_compute in Herr. discriminate.
Qed.

(** C3 (amended).  For every collection with no entry with id [X] and
    every valid status, [update X status] exits with status 1, writes
    nothing to standard output and leaves the file, hence the stored
    collection, as it was.  The message on standard error is [No job
    found with id: X] when [X] is not blank, and [Missing required
    argument: id] when [X] is blank (empty after trimming). *)
Theorem update_unknown_id env X s st rest w jobs :
  loadJobs w = (inl jobs, w) ->
  X ∉ map id jobs ->
  isStatus s = Some st ->
  exists w',
    run env (js "update" :: X :: s :: rest) w = (Some 1%Z, w')
    /\ stderr w' = stderr w
                   ++ [if bool_decide (trim X = [])
                       then js "Missing required argument: id"
                       else js "No job found with id: " ++ X]
    /\ stdout w' = stdout w
    /\ file w' = file w
    /\ loadJobs w' = (inl jobs, w').
Proof.
  intros Hload HX Hst.
  destruct (decide (trim X = [])) as [ Hblank | Hblank ].
  - rewrite (update_blank_id env w jobs Hload) by done.
    rewrite bool_decide_eq_true_2 by done.
    eexists. split_and!; [ done .. | ]. by apply (loadJobs_same_file w).
  - rewrite (update_not_found env w jobs Hload X s st) by
      (done || (apply findIndex_None; intros j Hj; apply bool_decide_eq_false;
                intros <-; apply HX, list_elem_of_In, in_map, list_elem_of_In, Hj)).
    rewrite bool_decide_eq_false_2 by done.
    eexists. split_and!; [ done .. | ]. by apply (loadJobs_same_file w).
Qed.

Lemma update_unknown_id_witness :
  exists w',
    run env0 [js "update"; js "1700000000999-0000"; js "applied"] (storeOf [acme])
    = (Some 1%Z, w')
    /\ stderr w' = stderr (storeOf [acme])
                   ++ [if bool_decide (trim (js "1700000000999-0000") = [])
                       then js "Missing required argument: id"
                       else js "No job found with id: " ++ js "1700000000999-0000"]
    /\ stdout w' = stdout (storeOf [acme])
    /\ file w' = file (storeOf [acme])
    /\ loadJobs w' = (inl [acme], w').
Proof.
  apply (update_unknown_id env0 (js "1700000000999-0000") (js "applied") applied
           [] (storeOf [acme]) [acme]).
  - vm_compute. reflexivity.
  - refine (bool_decide_eq_false_1 _ _). vm_compute. reflexivity.
  - vm_compute. reflexivity.
Defined.

Lemma statusWords_isStatus t :
  t ∈ statusWords <-> exists st, isStatus t = Some st.
Proof.
  split.
  - intros Ht. unfold statusWords in Ht.
    repeat (apply elem_of_cons in Ht as [ -> | Ht ]; [ by eexists | ]).
    by apply elem_of_nil in Ht.
  - intros [st Hst]. apply isStatus_Some in Hst as <-.
    destruct st; unfold statusWords; cbn [statusText]; repeat constructor.
Qed.

Lemma statusToken_word (rest : list jsstring) t st :
  rest !! 0%nat = Some t -> isStatus t = Some st ->
  statusToken (rest !! 0%nat) = Some st.
Proof.
  intros -> Hst. destruct t as [ | c t ]; [ done | exact Hst ].
Qed.

Lemma statusToken_other (rest : list jsstring) :
  (forall t, rest !! 0%nat = Some t -> t ∉ statusWords) ->
  statusToken (rest !! 0%nat) = None.
Proof.
  intros H. destruct (rest !! 0%nat) as [ [ | c t ] | ]; [ done | | done ].
  cbn [statusToken]. destruct (isStatus (c :: t)) as [ st | ] eqn:Hst; [ | done ].
  exfalso. apply (H (c :: t)); [ done | ]. apply statusWords_isStatus. eauto.
Qed.

(** C4.  For every [add] with company and role that pass the argument
    check: when the third token is exactly one of the five status words it
    is the status and the tokens after it, joined with single spaces, are
    the notes; otherwise the status is [saved] and the notes are all
    tokens from the third on, joined with single spaces.  Notes that come
    out empty are left unset. *)
Theorem add_status_or_notes env company role rest w jobs :
  loadJobs w = (inl jobs, w) ->
  trim company <> [] ->
  trim role <> [] ->
  exists w' newJob,
    run env (js "add" :: company :: role :: rest) w = (Some 0%Z, w')
    /\ loadJobs w' = (inl (newJob :: jobs), w')
    /\ (forall t, rest !! 0%nat = Some t -> t ∈ statusWords ->
          statusText (status newJob) = t
          /\ notes newJob
             = (if bool_decide (join (js " ") (drop 1 rest) = []) then None
                else Some (join (js " ") (drop 1 rest))))
    /\ ((forall t, rest !! 0%nat = Some t -> t ∉ statusWords) ->
          status newJob = saved
          /\ notes newJob
             = (if bool_decide (join (js " ") rest = []) then None
                else Some (join (js " ") rest))).
Proof.
  intros Hload Hc Hr.
  rewrite (add_created env w jobs Hload) by done.
  eexists _, (added env company role rest).
  split_and!; [ done | by apply loadJobs_written | | ].
  - intros t Ht Hword. apply statusWords_isStatus in Hword as [st Hst].
    unfold added. cbn [status notes].
    rewrite (statusToken_word rest t st) by done. cbn [default from_option].
    split; [ by apply isStatus_Some | ].
    by destruct (join (js " ") (drop 1 rest)).
  - intros Hother. unfold added. cbn [status notes].
    rewrite statusToken_other by done. split; [ done | ].
    by destruct (join (js " ") rest).
Qed.

Lemma add_status_or_notes_witness :
  exists w' newJob,
    run env0 [js "add"; js "Acme"; js "Engineer"; js "applied"; js "referral";
              js "note"] fresh = (Some 0%Z, w')
    /\ loadJobs w' = (inl [newJob], w')
    /\ (forall t, [js "applied"; js "referral"; js "note"] !! 0%nat = Some t ->
          t ∈ statusWords ->
          statusText (status newJob) = t
          /\ notes newJob
             = (if bool_decide (join (js " ") (drop 1 [js "applied"; js "referral"; js "note"]) = [])
                then None
                else Some (join (js " ") (drop 1 [js "applied"; js "referral"; js "note"]))))
    /\ ((forall t, [js "applied"; js "referral"; js "note"] !! 0%nat = Some t ->
           t ∉ statusWords) ->
          status newJob = saved
          /\ notes newJob
             = (if bool_decide (join (js " ") [js "applied"; js "referral"; js "note"] = [])
                then None
                else Some (join (js " ") [js "applied"; js "referral"; js "note"]))).
Proof.
  apply (add_status_or_notes env0 (js "Acme") (js "Engineer")
           [js "applied"; js "referral"; js "note"] fresh []).
  - reflexivity.
  - vm_compute. discriminate.
  - vm_compute. discriminate.
Defined.

Lemma filter_split X (jobs : list JobApplication) :
  (length (filter (fun j => id j <> X) jobs)
   + length (filter (fun j => id j = X) jobs) = length jobs)%nat.
Proof.
  induction jobs as [ | j jobs IH ]; [ done | ].
  rewrite !filter_cons.
  destruct (decide (id j <> X)) as [ Hne | Heq ];
    destruct (decide (id j = X)) as [ Heq' | Hne' ]; cbn [length];
    [ done | lia | lia | ].
  exfalso. by apply Heq.
Qed.

(** C5, as stated, fails when the one entry with id [X] has a blank id:
    [remove " "] stops in the argument check and the entry stays. *)
Lemma remove_blank_id_keeps_entry :
  loadJobs (storeOf [spaceId]) = (inl [spaceId], storeOf [spaceId])
  /\ length (filter (fun j => id j = js " ") [spaceId]) = 1%nat
  /\ run env0 [js "remove"; js " "] (storeOf [spaceId])
     = (Some 1%Z, withErr (js "Missing required argument: id") (storeOf [spaceId]))
  /\ ~ removesOne env0 (js " ") (storeOf [spaceId]) [spaceId].
Proof.
  assert (loadJobs (storeOf [spaceId]) = (inl [spaceId], storeOf [spaceId]))
    as Hload by (vm_compute; reflexivity).
  assert (run env0 [js "remove"; js " "] (storeOf [spaceId])
          = (Some 1%Z, withErr (js "Missing required argument: id")
                         (storeOf [spaceId]))) as Hrun
      by (vm_compute; reflexivity).
  split_and!; [ done | reflexivity | done | ].
  intros (code & w' & jobs' & Hrun' & Hload' & Hlen).
  rewrite Hrun in Hrun'. injection Hrun' as <- <-.
  rewrite (loadJobs_same_file (storeOf [spaceId])
             (withErr (js "Missing required argument: id") (storeOf [spaceId]))
             [spaceId] eq_refl Hload) in Hload'.
  injection Hload' as <-. discriminate.
Qed.

(** C5 (amended).  For every collection: when no entry has id [X], or
    [X] is blank, [remove X] exits with status 1, writes no file and the
    collection is as it was.  When [X] is not blank and some entry has id
    [X], the run succeeds and the stored collection is the old one
    without the entries with id [X], all of them, the others unchanged
    and in their order; its size is smaller by the number of entries with
    id [X], by exactly 1 when exactly one entry has it. *)
Theorem remove_targets_id env X rest w jobs :
  loadJobs w = (inl jobs, w) ->
  exists code w' jobs',
    run env (js "remove" :: X :: rest) w = (code, w')
    /\ loadJobs w' = (inl jobs', w')
    /\ (X ∉ map id jobs \/ trim X = [] ->
        code = Some 1%Z /\ file w' = file w /\ jobs' = jobs)
    /\ (trim X <> [] -> X ∈ map id jobs ->
        code = Some 0%Z
        /\ file w' = Some (JSON_stringify (jobsToJSON jobs'))
        /\ (X ∉ map id jobs')
        /\ (forall j, id j <> X -> j ∈ jobs' <-> j ∈ jobs)
        /\ sublist jobs' jobs
        /\ (length jobs' + length (filter (fun j => id j = X) jobs)
            = length jobs)%nat
        /\ (length (filter (fun j => id j = X) jobs) = 1%nat ->
            (length jobs' + 1 = length jobs)%nat)).
Proof.
  intros Hload.
  destruct (decide (X ∈ map id jobs)) as [ Hin | Hout ].
  - destruct (decide (trim X = [])) as [ Hblank | Hblank ].
    + rewrite (remove_blank_id env w jobs Hload) by done.
      eexists _, _, jobs.
      split_and!; [ done | by apply (loadJobs_same_file w) | done | done ].
    + assert (length (filter (fun j => id j <> X) jobs) <> length jobs) as Hlen.
      { rewrite filter_length_eq, <- absent_filter. tauto. }
      rewrite (remove_found env w jobs Hload) by done.
      eexists _, _, (filter (fun j => id j <> X) jobs).
      split_and!; [ done | by apply loadJobs_written | by intros [ ? | ? ] | ].
      intros _ _. pose proof (filter_split X jobs) as Hsplit.
      split_and!; [ done | done | | | apply sublist_filter | done | lia ].
      * rewrite list_elem_of_In, in_map_iff. intros (j & Hid & Hj).
        apply list_elem_of_In, list_elem_of_filter in Hj as [Hne _]. done.
      * intros j Hid. rewrite list_elem_of_filter. tauto.
  - assert (length (filter (fun j => id j <> X) jobs) = length jobs) as Hlen.
    { by rewrite filter_length_eq, <- absent_filter. }
    destruct (decide (trim X = [])) as [ Hblank | Hblank ].
    + rewrite (remove_blank_id env w jobs Hload) by done.
      eexists _, _, jobs.
      split_and!; [ done | by apply (loadJobs_same_file w) | done | done ].
    + rewrite (remove_not_found env w jobs Hload) by done.
      eexists _, _, jobs.
      split_and!; [ done | by apply (loadJobs_same_file w) | done | done ].
Qed.

Lemma remove_targets_id_witness :
  exists code w' jobs',
    run env0 [js "remove"; js "1700000000000-ab12cd"] (storeOf [globex; acme])
    = (code, w')
    /\ loadJobs w' = (inl jobs', w')
    /\ (js "1700000000000-ab12cd" ∉ map id [globex; acme]
        \/ trim (js "1700000000000-ab12cd") = [] ->
        code = Some 1%Z /\ file w' = file (storeOf [globex; acme])
        /\ jobs' = [globex; acme])
    /\ (trim (js "1700000000000-ab12cd") <> [] ->
        js "1700000000000-ab12cd" ∈ map id [globex; acme] ->
        code = Some 0%Z
        /\ file w' = Some (JSON_stringify (jobsToJSON jobs'))
        /\ (js "1700000000000-ab12cd" ∉ map id jobs')
        /\ (forall j, id j <> js "1700000000000-ab12cd" ->
              j ∈ jobs' <-> j ∈ [globex; acme])
        /\ sublist jobs' [globex; acme]
        /\ (length jobs'
            + length (filter (fun j => id j = js "1700000000000-ab12cd")
                             [globex; acme])
            = length [globex; acme])%nat
        /\ (length (filter (fun j => id j = js "1700000000000-ab12cd")
                           [globex; acme]) = 1%nat ->
            (length jobs' + 1 = length [globex; acme])%nat)).
Proof.
  apply (remove_targets_id env0 (js "1700000000000-ab12cd") []
           (storeOf [globex; acme]) [globex; acme]).
  vm_compute. reflexivity.
Defined.

(** C6.  Saving a collection and loading it again gives the same
    collection: the same entries, field by field, in the same order.  The
    text in between is well-formed UTF-16, so the UTF-8 file holds it
    exactly. *)
Theorem save_then_load jobs w :
  exists w' text,
    saveJobs jobs w = (inl tt, w')
    /\ file w' = Some text
    /\ wellFormed text = true
    /\ stdout w' = stdout w /\ stderr w' = stderr w
    /\ loadJobs w' = (inl jobs, w').
Proof.
  rewrite saveJobs_eq. eexists _, _.
  split_and!; [ done | done | apply wellFormed_jobs | done | done | ].
  by apply loadJobs_written.
Qed.

(** C7.  When the backing file does not exist, [loadJobs] returns the
    empty collection, and [list] prints the no-jobs message, exits with
    status 0 and still has no file. *)
Theorem list_on_fresh_store env args w :
  file w = None ->
  loadJobs w = (inl [], w)
  /\ exists w',
      run env (js "list" :: args) w = (Some 0%Z, w')
      /\ stdout w' = stdout w ++ [noJobsText]
      /\ stderr w' = stderr w
      /\ file w' = None.
Proof.
  intros Hfile. pose proof (loadJobs_absent w Hfile) as Hload.
  split; [ done | ]. rewrite list_empty by done.
  eexists. split_and!; done.
Qed.

Lemma list_on_fresh_store_witness :
  loadJobs fresh = (inl [], fresh)
  /\ exists w',
      run env0 [js "list"] fresh = (Some 0%Z, w')
      /\ stdout w' = stdout fresh ++ [noJobsText]
      /\ stderr w' = stderr fresh
      /\ file w' = None.
Proof. apply (list_on_fresh_store env0 [] fresh). reflexivity. Defined.

(** C9.  For every [add] whose company and role have non-whitespace
    content, the created entry holds the two tokens exactly as given,
    leading and trailing whitespace included, not their trimmed form. *)
Theorem add_stores_tokens_untrimmed env company role rest w jobs :
  loadJobs w = (inl jobs, w) ->
  trim company <> [] ->
  trim role <> [] ->
  exists w' newJob,
    run env (js "add" :: company :: role :: rest) w = (Some 0%Z, w')
    /\ loadJobs w' = (inl (newJob :: jobs), w')
    /\ Model.company newJob = company
    /\ Model.role newJob = role
    /\ (trim company <> company -> Model.company newJob <> trim company)
    /\ (trim role <> role -> Model.role newJob <> trim role).
Proof.
  intros Hload Hc Hr.
  rewrite (add_created env w jobs Hload) by done.
  eexists _, (added env company role rest).
  split_and!; [ done | by apply loadJobs_written | done | done | | ];
    cbn [added Model.company Model.role]; congruence.
Qed.

Lemma add_stores_tokens_untrimmed_witness :
  exists w' newJob,
    run env0 [js "add"; js "  Acme "; [9; 32] ++ js "Engineer"] fresh
    = (Some 0%Z, w')
    /\ loadJobs w' = (inl [newJob], w')
    /\ Model.company newJob = js "  Acme "
    /\ Model.role newJob = [9; 32] ++ js "Engineer"
    /\ (trim (js "  Acme ") <> js "  Acme " ->
        Model.company newJob <> trim (js "  Acme "))
    /\ (trim ([9; 32] ++ js "Engineer") <> [9; 32] ++ js "Engineer" ->
        Model.role newJob <> trim ([9; 32] ++ js "Engineer")).
Proof.
  apply (add_stores_tokens_untrimmed env0 (js "  Acme ")
           ([9; 32] ++ js "Engineer") [] fresh []).
  - reflexivity.
  - vm_compute. discriminate.
  - vm_compute. discriminate.
Defined.

Lemma findIndex_alter X st idx (jobs : list JobApplication) :
  findIndex (fun j => bool_decide (id j = X)) (alter (setStatus st) idx jobs)
  = findIndex (fun j => bool_decide (id j = X)) jobs.
Proof.
  unfold findIndex. revert idx. induction jobs as [ | j jobs IH ]; intros idx.
  - done.
  - destruct idx as [ | idx ]; cbn [alter list_alter list_find].
    + change (id (setStatus st j)) with (id j).
      by destruct (decide (bool_decide (id j = X) = true)).
    + specialize (IH idx). cbn [alter] in IH.
      destruct (decide (bool_decide (id j = X) = true)); [ done | ].
      set (P := fun x : JobApplication => bool_decide (id x = X) = true) in *.
      destruct (list_find P (alter (setStatus st) idx jobs)) as [ [a1 b1] | ];
        destruct (list_find P jobs) as [ [a2 b2] | ]; cbn in *; congruence.
Qed.

Lemma alter_setStatus_twice st idx (jobs : list JobApplication) :
  alter (setStatus st) idx (alter (setStatus st) idx jobs)
  = alter (setStatus st) idx jobs.
Proof.
  revert idx. induction jobs as [ | j jobs IH ]; intros [ | idx ];
    cbn [alter list_alter]; [ done .. | ].
  f_equal. apply IH.
Qed.

Lemma alter_setStatus_same st idx (jobs : list JobApplication) :
  status <$> jobs !! idx = Some st -> alter (setStatus st) idx jobs = jobs.
Proof.
  revert idx. induction jobs as [ | j jobs IH ]; intros [ | idx ] H;
    cbn [alter list_alter]; try done.
  - cbn in H. injection H as <-. by destruct j.
  - f_equal. by apply IH.
Qed.

Lemma alter_sameButStatus st idx (jobs : list JobApplication) :
  Forall2 sameButStatus jobs (alter (setStatus st) idx jobs).
Proof.
  revert idx. induction jobs as [ | j jobs IH ]; intros [ | idx ];
    cbn [alter list_alter]; constructor;
    first [ apply sameButStatus_setStatus | apply sameButStatus_refl
          | apply IH | idtac ].
  clear. induction jobs; constructor; [ apply sameButStatus_refl | done ].
Qed.

Lemma Forall2_sameButStatus_refl (jobs : list JobApplication) :
  Forall2 sameButStatus jobs jobs.
Proof. induction jobs; constructor; [ apply sameButStatus_refl | done ]. Qed.

Lemma sameButStatus_ids (l l' : list JobApplication) :
  Forall2 sameButStatus l l' -> map id l' = map id l.
Proof.
  induction 1 as [ | j j' l l' Hj _ IH ]; [ done | ].
  cbn [map]. f_equal; [ apply Hj | apply IH ].
Qed.

(** C8, as stated, fails in two ways.  An entry with a blank id cannot be
    named: [update " " saved] stops in the argument check with status 1.
    And when two entries share the id, the first one is updated, also
    when it is the second that already has the status. *)
Lemma update_same_status_not_accepted :
  (loadJobs (storeOf [spaceId]) = (inl [spaceId], storeOf [spaceId])
   /\ id spaceId = js " " /\ isStatus (js "saved") = Some (status spaceId)
   /\ ~ acceptsUnchanged env0 (js " ") (js "saved") (storeOf [spaceId]) [spaceId])
  /\ (loadJobs (storeOf [acme; acmeApplied])
        = (inl [acme; acmeApplied], storeOf [acme; acmeApplied])
      /\ id acmeApplied = js "1700000000000-ab12cd"
      /\ isStatus (js "applied") = Some (status acmeApplied)
      /\ ~ acceptsUnchanged env0 (js "1700000000000-ab12cd") (js "applied")
            (storeOf [acme; acmeApplied]) [acme; acmeApplied]).
Proof.
  split; (split_and!; [ vm_compute; reflexivity | reflexivity | reflexivity | ]);
    intros (w' & Hrun & Hload); vm_compute in Hrun.
  - discriminate.
  - injection Hrun as <-. vm_compute in Hload. discriminate.
Qed.

(** C8 (amended).  For every collection and valid status: when [X] is not
    blank and the first entry with id [X] already has the status,
    [update X status] succeeds with exit status 0, rewrites the file and
    the stored collection equals the original.  And for every [X],
    running the same update a second time leaves the collection that the
    first run left. *)
Theorem update_same_status_idempotent env env' X s st rest w jobs :
  loadJobs w = (inl jobs, w) ->
  isStatus s = Some st ->
  (trim X <> [] ->
   forall idx,
     findIndex (fun j => bool_decide (id j = X)) jobs = Some idx ->
     status <$> jobs !! idx = Some st ->
     exists w',
       run env (js "update" :: X :: s :: rest) w = (Some 0%Z, w')
       /\ file w' = Some (JSON_stringify (jobsToJSON jobs))
       /\ loadJobs w' = (inl jobs, w'))
  /\ exists code1 w1 code2 w2 jobs1,
      run env (js "update" :: X :: s :: rest) w = (code1, w1)
      /\ run env' (js "update" :: X :: s :: rest) w1 = (code2, w2)
      /\ loadJobs w1 = (inl jobs1, w1)
      /\ loadJobs w2 = (inl jobs1, w2)
      /\ code2 = code1.
Proof.
  intros Hload Hst. split.
  - intros Hblank idx Hidx Hsame.
    rewrite (update_found env w jobs Hload X s st rest idx) by done.
    rewrite alter_setStatus_same by done.
    eexists. split_and!; [ done | done | by apply loadJobs_written ].
  - destruct (decide (trim X = [])) as [ Hblank | Hblank ].
    { pose proof (loadJobs_same_file w
                    (withErr (js "Missing required argument: id") w) jobs
                    eq_refl Hload) as Hload1.
      eexists _, _, _, _, jobs.
      split_and!;
        [ by apply (update_blank_id env w jobs Hload)
        | by apply (update_blank_id env' _ jobs Hload1)
        | done | by apply (loadJobs_same_file w) | done ]. }
    destruct (findIndex (fun j => bool_decide (id j = X)) jobs) as [ idx | ] eqn:Hidx.
    + set (jobs1 := alter (setStatus st) idx jobs).
      pose proof (update_found env w jobs Hload X s st rest idx Hblank Hst Hidx)
        as Hrun1.
      set (w1 := withOut _ _) in Hrun1.
      assert (loadJobs w1 = (inl jobs1, w1)) as Hload1 by (by apply loadJobs_written).
      assert (findIndex (fun j => bool_decide (id j = X)) jobs1 = Some idx) as Hidx1
        by (subst jobs1; by rewrite findIndex_alter).
      pose proof (update_found env' w1 jobs1 Hload1 X s st rest idx Hblank Hst Hidx1)
        as Hrun2.
      eexists _, _, _, _, jobs1.
      split_and!; [ exact Hrun1 | exact Hrun2 | done | | done ].
      apply loadJobs_written. cbn [file withOut withFile].
      subst jobs1. by rewrite alter_setStatus_twice.
    + pose proof (loadJobs_same_file w
                    (withErr (js "No job found with id: " ++ X) w) jobs
                    eq_refl Hload) as Hload1.
      eexists _, _, _, _, jobs.
      split_and!;
        [ by apply (update_not_found env w jobs Hload X s st)
        | by apply (update_not_found env' _ jobs Hload1 X s st)
        | done | by apply (loadJobs_same_file w) | done ].
Qed.

Lemma update_same_status_idempotent_witness :
  (trim (js "1700000000000-ab12cd") <> [] ->
   forall idx,
     findIndex (fun j => bool_decide (id j = js "1700000000000-ab12cd"))
               [globex; acme] = Some idx ->
     status <$> [globex; acme] !! idx = Some saved ->
     exists w',
       run env0 [js "update"; js "1700000000000-ab12cd"; js "saved"]
           (storeOf [globex; acme]) = (Some 0%Z, w')
       /\ file w' = Some (JSON_stringify (jobsToJSON [globex; acme]))
       /\ loadJobs w' = (inl [globex; acme], w'))
  /\ exists code1 w1 code2 w2 jobs1,
      run env0 [js "update"; js "1700000000000-ab12cd"; js "saved"]
          (storeOf [globex; acme]) = (code1, w1)
      /\ run env0 [js "update"; js "1700000000000-ab12cd"; js "saved"] w1
         = (code2, w2)
      /\ loadJobs w1 = (inl jobs1, w1)
      /\ loadJobs w2 = (inl jobs1, w2)
      /\ code2 = code1.
Proof.
  apply (update_same_status_idempotent env0 env0 (js "1700000000000-ab12cd")
           (js "saved") saved [] (storeOf [globex; acme]) [globex; acme]).
  - vm_compute. reflexivity.
  - vm_compute. reflexivity.
Defined.

(** C10.  Every operation keeps the order of the entries it neither
    creates nor deletes.  Whatever its arguments, [add] leaves the
    collection as it was or puts one entry in front of it; [update]
    leaves every entry at its position, changing at most a status;
    [remove] leaves the collection as it was or deletes the entries with
    the given id, the others keeping their relative order; any other
    invocation leaves the collection as it was. *)
Theorem operations_preserve_order env args w jobs :
  loadJobs w = (inl jobs, w) ->
  (exists code w' jobs',
      run env (js "add" :: args) w = (code, w')
      /\ loadJobs w' = (inl jobs', w')
      /\ (jobs' = jobs \/ exists newJob, jobs' = newJob :: jobs))
  /\ (exists code w' jobs',
        run env (js "update" :: args) w = (code, w')
        /\ loadJobs w' = (inl jobs', w')
        /\ Forall2 sameButStatus jobs jobs'
        /\ map id jobs' = map id jobs)
  /\ (exists code w' jobs',
        run env (js "remove" :: args) w = (code, w')
        /\ loadJobs w' = (inl jobs', w')
        /\ sublist jobs' jobs
        /\ (jobs' = jobs
            \/ exists X, args !! 0%nat = Some X
                         /\ jobs' = filter (fun j => id j <> X) jobs))
  /\ (forall argv,
        (forall command, argv !! 0%nat = Some command ->
                         command ∉ [js "add"; js "update"; js "remove"]) ->
        exists code w',
          run env argv w = (code, w')
          /\ loadJobs w' = (inl jobs, w')).
Proof.
  intros Hload. split_and!.
  - destruct (add_outcome env w jobs Hload args)
      as (code & w' & Hrun & [ Hfile | [newJob Hfile] ]).
    + exists code, w', jobs.
      split_and!; [ done | by apply (loadJobs_same_file w) | by left ].
    + exists code, w', (newJob :: jobs).
      split_and!; [ done | by apply loadJobs_written | right; by eexists ].
  - destruct (update_outcome env w jobs Hload args)
      as (code & w' & Hrun & [ Hfile | (X & st & idx & _ & _ & _ & Hfile) ]).
    + exists code, w', jobs.
      split_and!; [ done | by apply (loadJobs_same_file w)
                  | apply Forall2_sameButStatus_refl | done ].
    + exists code, w', (alter (setStatus st) idx jobs).
      split_and!; [ done | by apply loadJobs_written
                  | apply alter_sameButStatus | ].
      apply sameButStatus_ids, alter_sameButStatus.
  - destruct (remove_outcome env w jobs Hload args)
      as (code & w' & Hrun & [ Hfile | (X & HX & _ & Hfile) ]).
    + exists code, w', jobs.
      split_and!; [ done | by apply (loadJobs_same_file w) | done | by left ].
    + exists code, w', (filter (fun j => id j <> X) jobs).
      split_and!; [ done | by apply loadJobs_written | apply sublist_filter | ].
      right. by exists X.
  - intros argv Hother.
    pose proof (other_commands_keep_file env argv w jobs Hload Hother) as Hfile.
    destruct (run env argv w) as [code w']. exists code, w'.
    split; [ done | by apply (loadJobs_same_file w) ].
Qed.

Lemma operations_preserve_order_witness :
  (exists code w' jobs',
      run env0 (js "add" :: [js "1700000000000-ab12cd"; js "offer"])
          (storeOf [globex; acme]) = (code, w')
      /\ loadJobs w' = (inl jobs', w')
      /\ (jobs' = [globex; acme] \/ exists newJob, jobs' = newJob :: [globex; acme]))
  /\ (exists code w' jobs',
        run env0 (js "update" :: [js "1700000000000-ab12cd"; js "offer"])
            (storeOf [globex; acme]) = (code, w')
        /\ loadJobs w' = (inl jobs', w')
        /\ Forall2 sameButStatus [globex; acme] jobs'
        /\ map id jobs' = map id [globex; acme])
  /\ (exists code w' jobs',
        run env0 (js "remove" :: [js "1700000000000-ab12cd"; js "offer"])
            (storeOf [globex; acme]) = (code, w')
        /\ loadJobs w' = (inl jobs', w')
        /\ sublist jobs' [globex; acme]
        /\ (jobs' = [globex; acme]
            \/ exists X, [js "1700000000000-ab12cd"; js "offer"] !! 0%nat = Some X
                         /\ jobs' = filter (fun j => id j <> X) [globex; acme]))
  /\ (forall argv,
        (forall command, argv !! 0%nat = Some command ->
                         command ∉ [js "add"; js "update"; js "remove"]) ->
        exists code w',
          run env0 argv (storeOf [globex; acme]) = (code, w')
          /\ loadJobs w' = (inl [globex; acme], w')).
Proof.
  apply (operations_preserve_order env0 [js "1700000000000-ab12cd"; js "offer"]
           (storeOf [globex; acme]) [globex; acme]).
  vm_compute. reflexivity.
Defined.

End Claims.

(** ** Facts about the remaining functions *)

Module BehaviourFacts.
Import JsonFacts ProgramFacts.

(** *** [trim] *)

Lemma trimStart_nil s :
  trimStart s = [] <-> Forall (fun c => isWhiteSpace c = true) s.
Proof.
  induction s as [ | c s IH ]; cbn [trimStart].
  - split; [ constructor | done ].
  - destruct (isWhiteSpace c) eqn:Hc.
    + rewrite IH. split; [ by constructor | by inversion 1 ].
    + split; [ done | ]. inversion 1; congruence.
Qed.

Lemma trimStart_head s :
  trimStart s = []
  \/ exists c t, trimStart s = c :: t /\ isWhiteSpace c = false.
Proof.
  induction s as [ | c s IH ]; cbn [trimStart]; [ by left | ].
  destruct (isWhiteSpace c) eqn:Hc; [ done | ]. right. by exists c, s.
Qed.

(** A string trims to the empty string exactly when it has whitespace
    only. *)
Lemma trim_nil s :
  trim s = [] <-> Forall (fun c => isWhiteSpace c = true) s.
Proof.
  unfold trim, trimEnd. rewrite <- trimStart_nil. split.
  - intros H. apply (f_equal reverse) in H.
    rewrite reverse_involutive, reverse_nil in H.
    apply trimStart_nil, Forall_reverse in H.
    rewrite reverse_involutive in H.
    destruct (trimStart_head s) as [ Hs | (c & t & Hs & Hc) ]; [ done | ].
    rewrite Hs in H. inversion H; congruence.
  - by intros ->.
Qed.

Lemma trim_solid a c b : isWhiteSpace c = false -> trim (a ++ c :: b) <> [].
Proof.
  intros Hc H. apply trim_nil, Forall_app in H as [_ H].
  inversion H; congruence.
Qed.

(** *** [decimal] and [makeId] *)

Lemma js_inj s t : js s = js t -> s = t.
Proof.
  unfold js. revert t. induction s as [ | a s IH ]; intros [ | b t ] H;
    cbn in H; try done.
  injection H as Hab H. f_equal; [ | by apply IH ].
  apply (f_equal ascii_of_N) in Hab. by rewrite !ascii_N_embedding in Hab.
Qed.

Lemma string_of_uint_digits d :
  Forall (fun c => isDigit c = true) (js (NilEmpty.string_of_uint d)).
Proof. induction d; cbn; constructor; done. Qed.

Lemma decimal_digits n : Forall (fun c => isDigit c = true) (decimal n).
Proof. apply string_of_uint_digits. Qed.


Lemma decimal_inj n m : decimal n = decimal m -> n = m.
Proof.
  unfold decimal. intros H%js_inj.
  apply DecimalN.Unsigned.to_uint_inj.
  apply (f_equal NilEmpty.uint_of_string) in H.
  rewrite !NilEmpty.usu in H. by injection H.
Qed.

Lemma split_at_mark (x : N) l1 r1 l2 r2 :
  l1 ++ x :: r1 = l2 ++ x :: r2 -> x ∉ l1 -> x ∉ l2 -> l1 = l2 /\ r1 = r2.
Proof.
  revert l2. induction l1 as [ | a l1 IH ]; intros [ | b l2 ] H H1 H2;
    cbn in H.
  - by injection H.
  - injection H as -> _. exfalso. apply H2. constructor.
  - injection H as -> _. exfalso. apply H1. constructor.
  - injection H as -> H.
    destruct (IH l2 H) as [-> ->]; [ | | done ].
    + intros Hin. apply H1. by constructor.
    + intros Hin. apply H2. by constructor.
Qed.

Lemma digits_no_dash l : Forall (fun c => isDigit c = true) l -> 45 ∉ l.
Proof.
  intros H Hin. rewrite List.Forall_forall in H.
  apply list_elem_of_In in Hin. by apply H in Hin.
Qed.

Lemma makeId_not_blank env : trim (makeId env) <> [].
Proof. unfold makeId. by apply trim_solid. Qed.

(** *** Every way through [main] *)

Ltac enter Hload :=
  unfold run, main; unfold bind at 1; rewrite Hload;
  cbn [lookup list_lookup drop]; commands; cbn [orb].

Section Runs.
Context (env : Env) (w : World) (jobs : list JobApplication).
Hypothesis Hload : loadJobs w = (inl jobs, w).

Lemma help_run argv :
  argv !! 0%nat = None \/ argv !! 0%nat = Some []
  \/ argv !! 0%nat = Some (js "help") ->
  run env argv w = (Some 0%Z, withOut helpText w).
Proof.
  intros H. unfold run, main. unfold bind at 1. rewrite Hload.
  destruct H as [ -> | [ -> | -> ] ]; [ reflexivity | reflexivity | ].
  commands. reflexivity.
Qed.

Lemma unknown_run command args :
  command <> [] ->
  command ∉ [js "add"; js "list"; js "update"; js "remove"; js "help"] ->
  run env (command :: args) w
  = (Some 0%Z, withOut helpText (withErr (js "Unknown command: " ++ command) w)).
Proof.
  intros Hne Hcmd. enter Hload.
  rewrite !(bool_decide_eq_false_2 (command = _)); [ reflexivity | .. ];
    intros ->; first [ done | apply Hcmd; repeat constructor ].
Qed.

Lemma blankArg_cases value :
  blankArg value = true /\ (value = None \/ exists v, value = Some v /\ trim v = [])
  \/ blankArg value = false /\ exists v, value = Some v /\ trim v <> [].
Proof.
  destruct value as [ v | ]; cbn [blankArg]; [ | left; eauto ].
  case_bool_decide; [ left | right ]; eauto.
Qed.

Lemma missing_run command args name :
  firstMissing command args = Some name ->
  run env (command :: args) w
  = (Some 1%Z, withErr (js "Missing required argument: " ++ name) w).
Proof.
  unfold firstMissing. intros H.
  repeat case_bool_decide; subst; try done.
  - destruct args as [ | company [ | role rest ] ]; cbn [lookup list_lookup blankArg] in H;
      repeat case_bool_decide; simplify_eq.
    + by eapply add_without_company.
    + by eapply add_blank_company.
    + by eapply add_without_role.
    + by eapply add_blank_company.
    + by eapply add_blank_role.
  - destruct args as [ | X [ | s rest ] ]; cbn [lookup list_lookup blankArg] in H;
      repeat case_bool_decide; simplify_eq.
    + by eapply update_without_id.
    + by eapply update_blank_id.
    + by eapply update_without_status.
    + by eapply update_blank_id.
    + by eapply update_blank_status.
  - destruct args as [ | X rest ]; cbn [lookup list_lookup blankArg] in H;
      repeat case_bool_decide; simplify_eq.
    + by eapply remove_without_id.
    + by eapply remove_blank_id.
Qed.

Lemma entry_logged j w1 :
  (console_log (js "- " ++ company j ++ js " " ++ [8212] ++ js " " ++ role j) ;;
   console_log (js "  id: " ++ id j) ;;
   console_log (js "  status: " ++ statusText (status j)) ;;
   console_log (js "  created: " ++ toLocaleString env (createdAt j)) ;;
   match notes j with
   | Some (c :: n) => console_log (js "  notes: " ++ c :: n)
   | _ => ret tt
   end ;;
   console_log []) w1
  = (inl tt, withLines (entryLines env j) w1).
Proof.
  unfold entryLines, withLines, bind, console_log, ret.
  destruct (notes j) as [ [ | c n ] | ]; cbn [file stdout stderr];
    f_equal; f_equal; rewrite <- !app_assoc; reflexivity.
Qed.

Lemma entries_logged js0 w1 :
  forOf js0 (fun j =>
    console_log (js "- " ++ company j ++ js " " ++ [8212] ++ js " " ++ role j) ;;
    console_log (js "  id: " ++ id j) ;;
    console_log (js "  status: " ++ statusText (status j)) ;;
    console_log (js "  created: " ++ toLocaleString env (createdAt j)) ;;
    match notes j with
    | Some (c :: n) => console_log (js "  notes: " ++ c :: n)
    | _ => ret tt
    end ;;
    console_log []) w1
  = (inl tt, withLines (concat (map (entryLines env) js0)) w1).
Proof.
  revert w1. induction js0 as [ | j js0 IH ]; intros w1; cbn [forOf map concat].
  - unfold ret, withLines. destruct w1. cbn [file stdout stderr].
    by rewrite app_nil_r.
  - unfold bind at 1. rewrite entry_logged, IH.
    unfold withLines. cbn [file stdout stderr]. by rewrite <- app_assoc.
Qed.

Lemma list_run args :
  run env (js "list" :: args) w = (Some 0%Z, withLines (listing env jobs) w).
Proof.
  enter Hload. destruct jobs as [ | j js0 ] eqn:Hjobs; [ reflexivity | ].
  rewrite bool_decide_eq_false_2 by done.
  unfold bind at 1. unfold console_log at 1.
  rewrite entries_logged. unfold withLines, listing.
  cbn [file stdout stderr exitStatus]. by rewrite <- app_assoc.
Qed.

End Runs.

Lemma firstMissing_add args :
  firstMissing (js "add") args = None ->
  exists company role rest,
    args = company :: role :: rest /\ trim company <> [] /\ trim role <> [].
Proof.
  unfold firstMissing. commands. cbv iota.
  destruct args as [ | company [ | role rest ] ];
    cbn [lookup list_lookup blankArg]; repeat case_bool_decide; try done.
  intros _. by exists company, role, rest.
Qed.

Lemma firstMissing_update args :
  firstMissing (js "update") args = None ->
  exists X s rest, args = X :: s :: rest /\ trim X <> [] /\ trim s <> [].
Proof.
  unfold firstMissing. commands. cbv iota.
  destruct args as [ | X [ | s rest ] ];
    cbn [lookup list_lookup blankArg]; repeat case_bool_decide; try done.
  intros _. by exists X, s, rest.
Qed.

Lemma firstMissing_remove args :
  firstMissing (js "remove") args = None ->
  exists X rest, args = X :: rest /\ trim X <> [].
Proof.
  unfold firstMissing. commands. cbv iota.
  destruct args as [ | X rest ];
    cbn [lookup list_lookup blankArg]; repeat case_bool_decide; try done.
  intros _. by exists X, rest.
Qed.

Lemma findIndex_absent X (jobs : list JobApplication) :
  findIndex (fun j => bool_decide (id j = X)) jobs = None <-> X ∉ map id jobs.
Proof.
  rewrite findIndex_None, absent_filter, List.Forall_forall. split.
  - intros H j Hj. apply list_elem_of_In, H in Hj.
    by apply bool_decide_eq_false in Hj.
  - intros H j Hj. apply bool_decide_eq_false. by apply H, list_elem_of_In.
Qed.

(** One invocation on a store that loads takes one of the nine ways. *)
Lemma run_outcome env argv w jobs :
  loadJobs w = (inl jobs, w) -> Outcome env w jobs argv (run env argv w).
Proof.
  intros Hload. destruct argv as [ | command args ].
  { rewrite (help_run env w jobs Hload) by (by left). constructor. by left. }
  destruct (decide (command = [])) as [ -> | Hne ].
  { rewrite (help_run env w jobs Hload) by (right; by left).
    constructor. right. by left. }
  destruct (decide (command = js "help")) as [ -> | Hhelp ].
  { rewrite (help_run env w jobs Hload) by (right; by right).
    constructor. right. by right. }
  destruct (decide (command = js "list")) as [ -> | Hlist ].
  { rewrite (list_run env w jobs Hload). constructor. }
  destruct (firstMissing command args) as [ name | ] eqn:Hmiss.
  { rewrite (missing_run env w jobs Hload command args name Hmiss).
    by constructor. }
  destruct (decide (command = js "add")) as [ -> | Hadd ].
  { destruct (firstMissing_add args Hmiss) as (company & role & rest & -> & Hc & Hr).
    rewrite (add_created env w jobs Hload) by done. by constructor. }
  destruct (decide (command = js "update")) as [ -> | Hupdate ].
  { destruct (firstMissing_update args Hmiss) as (X & s & rest & -> & HX & Hs).
    destruct (isStatus s) as [ st | ] eqn:Hst.
    2: { rewrite (update_invalid_status env w jobs Hload) by done.
         by constructor. }
    destruct (findIndex (fun j => bool_decide (id j = X)) jobs) as [ idx | ] eqn:Hidx.
    - rewrite (update_found env w jobs Hload X s st rest idx) by done.
      by econstructor.
    - rewrite (update_not_found env w jobs Hload X s st) by done.
      apply NotFound; [ left; reflexivity | exact Hmiss | | by apply findIndex_absent ].
      intros _. by exists s, st. }
  destruct (decide (command = js "remove")) as [ -> | Hremove ].
  { destruct (firstMissing_remove args Hmiss) as (X & rest & -> & HX).
    destruct (decide (X ∈ map id jobs)) as [ Hin | Hout ].
    - rewrite (remove_found env w jobs Hload) by
        (done || (rewrite filter_length_eq, <- absent_filter; tauto)).
      by constructor.
    - rewrite (remove_not_found env w jobs Hload) by
        (done || (by rewrite filter_length_eq, <- absent_filter)).
      apply NotFound; [ right; reflexivity | exact Hmiss | | exact Hout ].
      intros H. by destruct Hupdate. }
  rewrite (unknown_run env w jobs Hload) by
    (done || (intros Hin; repeat (apply elem_of_cons in Hin as [ -> | Hin ]; [ done | ]);
              by apply elem_of_nil in Hin)).
  constructor; [ done | ].
  intros Hin. repeat (apply elem_of_cons in Hin as [ -> | Hin ]; [ done | ]).
  by apply elem_of_nil in Hin.
Qed.

(** The collection that an invocation leaves in the store. *)
Lemma outcome_collection env w jobs argv code w' :
  loadJobs w = (inl jobs, w) ->
  Outcome env w jobs argv (code, w') ->
  exists jobs',
    loadJobs w' = (inl jobs', w')
    /\ (file w' = file w
        \/ file w' = Some (JSON_stringify (jobsToJSON jobs')))
    /\ (jobs' = jobs
        \/ (exists company role rest, jobs' = added env company role rest :: jobs)
        \/ (exists st idx, jobs' = alter (setStatus st) idx jobs)
        \/ (exists X, jobs' = filter (fun j => id j <> X) jobs)).
Proof.
  intros Hload Hout.
  inversion Hout; subst;
    try (exists jobs; split_and!;
         [ by apply (loadJobs_same_file w) | by left | by left ]).
  - eexists. split_and!; [ by apply loadJobs_written | by right | ].
    right. left. eauto.
  - eexists. split_and!; [ by apply loadJobs_written | by right | ].
    right. right. left. eauto.
  - eexists. split_and!; [ by apply loadJobs_written | by right | ].
    right. right. right. eauto.
Qed.

(** *** Lists of entries *)

Lemma findIndex_head {A} (pred : A -> bool) x xs :
  pred x = true -> findIndex pred (x :: xs) = Some 0%nat.
Proof.
  intros Hx. unfold findIndex. cbn [list_find].
  by rewrite decide_True.
Qed.

Lemma filter_absent X (jobs : list JobApplication) :
  X ∉ map id jobs -> filter (fun j => id j <> X) jobs = jobs.
Proof.
  rewrite absent_filter. induction 1 as [ | j jobs Hj _ IH ]; [ done | ].
  rewrite filter_cons_True by done. by rewrite IH.
Qed.

Lemma filter_removes X (jobs : list JobApplication) :
  X ∉ map id (filter (fun j => id j <> X) jobs).
Proof.
  rewrite list_elem_of_In, in_map_iff. intros (j & Hid & Hj).
  apply list_elem_of_In, list_elem_of_filter in Hj as [Hne _]. done.
Qed.

Lemma alter_setStatus_over st1 st2 idx (jobs : list JobApplication) :
  alter (setStatus st2) idx (alter (setStatus st1) idx jobs)
  = alter (setStatus st2) idx jobs.
Proof.
  revert idx. induction jobs as [ | j jobs IH ]; intros [ | idx ];
    cbn [alter list_alter]; [ done .. | ].
  f_equal. apply IH.
Qed.

Lemma corrupt_run env argv w raw :
  file w = Some raw -> JSON_parse raw = None -> run env argv w = (Some 1%Z, w).
Proof.
  intros Hfile Hparse. unfold run, main. unfold bind at 1.
  rewrite loadJobs_eq, Hfile. unfold stored. by rewrite Hparse.
Qed.

(** *** One step of a session *)

Lemma step_collection env argv w jobs :
  loadJobs w = (inl jobs, w) ->
  exists jobs',
    loadJobs (snd (run env argv w)) = (inl jobs', snd (run env argv w))
    /\ (file (snd (run env argv w)) = file w
        \/ file (snd (run env argv w))
           = Some (JSON_stringify (jobsToJSON jobs')))
    /\ (jobs' = jobs
        \/ (exists company role rest, jobs' = added env company role rest :: jobs)
        \/ (exists st idx, jobs' = alter (setStatus st) idx jobs)
        \/ (exists X, jobs' = filter (fun j => id j <> X) jobs)).
Proof.
  intros Hload. pose proof (run_outcome env argv w jobs Hload) as Hout.
  destruct (run env argv w) as [code w']. cbn [snd].
  by eapply outcome_collection.
Qed.

Lemma alter_ids st idx (jobs : list JobApplication) :
  map id (alter (setStatus st) idx jobs) = map id jobs.
Proof. apply Claims.sameButStatus_ids, Claims.alter_sameButStatus. Qed.

Lemma filter_ids_NoDup X (jobs : list JobApplication) :
  NoDup (map id jobs) -> NoDup (map id (filter (fun j => id j <> X) jobs)).
Proof.
  induction jobs as [ | j jobs IH ]; [ done | ]. cbn [map].
  inversion 1 as [ | ? ? Hj Hrest ]; subst. rewrite filter_cons.
  destruct (decide (id j <> X)); [ | by apply IH ].
  cbn [map]. constructor; [ | by apply IH ].
  intros Hin. apply Hj. clear Hj.
  rewrite list_elem_of_In in Hin |- *.
  apply in_map_iff in Hin as (k & Hk & Hin).
  apply list_elem_of_In, list_elem_of_filter in Hin as [_ Hin].
  apply in_map_iff. exists k. split; [ done | ].
  by apply list_elem_of_In.
Qed.

Lemma alter_solid_ids st idx (jobs : list JobApplication) :
  Forall (fun j => trim (id j) <> []) jobs ->
  Forall (fun j => trim (id j) <> []) (alter (setStatus st) idx jobs).
Proof.
  intros H. revert idx. induction H as [ | j jobs Hj Hrest IH ]; intros [ | idx ];
    cbn [alter list_alter]; constructor; done.
Qed.

Lemma step_solid_ids env argv w jobs :
  loadJobs w = (inl jobs, w) ->
  Forall (fun j => trim (id j) <> []) jobs ->
  exists jobs',
    loadJobs (snd (run env argv w)) = (inl jobs', snd (run env argv w))
    /\ Forall (fun j => trim (id j) <> []) jobs'.
Proof.
  intros Hload Hsolid.
  destruct (step_collection env argv w jobs Hload)
    as (jobs' & Hload' & _ & Hkind).
  exists jobs'. split; [ done | ].
  destruct Hkind as [ -> | [ (c & r & rest & ->) | [ (st & idx & ->) | (X & ->) ] ] ].
  - done.
  - constructor; [ apply makeId_not_blank | done ].
  - by apply alter_solid_ids.
  - rewrite List.Forall_forall in Hsolid |- *. intros j Hj.
    apply list_elem_of_In, list_elem_of_filter in Hj as [_ Hj].
    by apply Hsolid, list_elem_of_In.
Qed.


End BehaviourFacts.

(** ** Further properties of the program *)

Module Extras.
Import JsonFacts ProgramFacts BehaviourFacts.

(** X1.  [requireArg] fails exactly when the value is absent or has only
    whitespace (the empty string included): it then adds one line,
    naming the argument, to standard error and exits with status 1.
    Otherwise it returns the value as given and changes nothing. *)
Theorem requireArg_decides value name w :
  requireArg value name w
  = match value with
    | Some v =>
        if forallb isWhiteSpace v
        then (inr (Exit 1),
              withErr (js "Missing required argument: " ++ name) w)
        else (inl v, w)
    | None =>
        (inr (Exit 1), withErr (js "Missing required argument: " ++ name) w)
    end.
Proof.
  destruct value as [ v | ]; [ | reflexivity ].
  destruct (forallb isWhiteSpace v) eqn:Hws.
  - apply requireArg_blank, trim_nil, List.Forall_forall.
    by apply forallb_forall.
  - apply requireArg_ok. intros H%trim_nil.
    rewrite List.Forall_forall, <- forallb_forall in H. congruence.
Qed.


(** X3.  Ids generated at different clock readings differ, whatever the
    random parts are. *)
Theorem makeId_clock_distinct env1 env2 :
  Date_now env1 <> Date_now env2 -> makeId env1 <> makeId env2.
Proof.
  intros Hclock Hid. apply Hclock, decimal_inj. unfold makeId in Hid.
  by destruct (split_at_mark 45 _ _ _ _ Hid
                 (digits_no_dash _ (decimal_digits _))
                 (digits_no_dash _ (decimal_digits _))).
Qed.

Lemma makeId_clock_distinct_witness :
  makeId env0
  <> makeId {| Date_now := 1700000000001; Math_random_hex := js "0.ab12cd";
               Date_toISOString := js "2023-11-14T22:13:20.001Z";
               toLocaleString := fun s => s |}.
Proof. apply makeId_clock_distinct. vm_compute. discriminate. Defined.

(** X4.  [add] does not look for an existing id: two successful adds at
    the same clock reading and random draw store two entries with the
    same id, the later one in front. *)
Theorem add_same_instant_same_id env company1 role1 rest1 company2 role2 rest2
    w jobs :
  loadJobs w = (inl jobs, w) ->
  trim company1 <> [] -> trim role1 <> [] ->
  trim company2 <> [] -> trim role2 <> [] ->
  exists w1 w2 first second,
    run env (js "add" :: company1 :: role1 :: rest1) w = (Some 0%Z, w1)
    /\ run env (js "add" :: company2 :: role2 :: rest2) w1 = (Some 0%Z, w2)
    /\ loadJobs w2 = (inl (second :: first :: jobs), w2)
    /\ company first = company1 /\ company second = company2
    /\ id second = id first.
Proof.
  intros Hload Hc1 Hr1 Hc2 Hr2.
  pose proof (add_created env w jobs Hload company1 role1 rest1 Hc1 Hr1) as Hrun1.
  cbv zeta in Hrun1. set (w1 := withOut _ _) in Hrun1.
  assert (loadJobs w1 = (inl (added env company1 role1 rest1 :: jobs), w1))
    as Hload1 by (by apply loadJobs_written).
  pose proof (add_created env w1 _ Hload1 company2 role2 rest2 Hc2 Hr2) as Hrun2.
  cbv zeta in Hrun2. set (w2 := withOut _ _) in Hrun2.
  exists w1, w2, (added env company1 role1 rest1), (added env company2 role2 rest2).
  split_and!; [ done | done | by apply loadJobs_written | done .. ].
Qed.

Lemma add_same_instant_same_id_witness :
  exists w1 w2 first second,
    run env0 [js "add"; js "Acme"; js "Engineer"] fresh = (Some 0%Z, w1)
    /\ run env0 [js "add"; js "Globex"; js "Analyst"; js "offer"] w1
       = (Some 0%Z, w2)
    /\ loadJobs w2 = (inl [second; first], w2)
    /\ company first = js "Acme" /\ company second = js "Globex"
    /\ id second = id first.
Proof.
  apply (add_same_instant_same_id env0 (js "Acme") (js "Engineer") []
           (js "Globex") (js "Analyst") [js "offer"] fresh []);
    [ reflexivity | vm_compute; discriminate .. ].
Defined.

(** X5.  [add] prints, as its last line, the id it stored; [update]
    with that id and a valid status then succeeds and changes the status
    of the new entry only. *)
Theorem add_id_usable env env' company role rest s st rest' w jobs :
  loadJobs w = (inl jobs, w) ->
  trim company <> [] -> trim role <> [] ->
  isStatus s = Some st ->
  exists w1 w2 newJob line,
    run env (js "add" :: company :: role :: rest) w = (Some 0%Z, w1)
    /\ stdout w1 = stdout w ++ [line; js "   id: " ++ id newJob]
    /\ loadJobs w1 = (inl (newJob :: jobs), w1)
    /\ run env' (js "update" :: id newJob :: s :: rest') w1 = (Some 0%Z, w2)
    /\ loadJobs w2 = (inl (setStatus st newJob :: jobs), w2).
Proof.
  intros Hload Hc Hr Hst.
  pose proof (add_created env w jobs Hload company role rest Hc Hr) as Hrun1.
  cbv zeta in Hrun1. set (w1 := withOut _ _) in Hrun1.
  set (newJob := added env company role rest) in *.
  assert (loadJobs w1 = (inl (newJob :: jobs), w1)) as Hload1
    by (by apply loadJobs_written).
  assert (findIndex (fun j => bool_decide (id j = id newJob)) (newJob :: jobs)
          = Some 0%nat) as Hidx
    by (apply findIndex_head; by apply bool_decide_eq_true_2).
  pose proof (update_found env' w1 _ Hload1 (id newJob) s st rest' 0%nat
                (makeId_not_blank env) Hst Hidx) as Hrun2.
  eexists w1, _, newJob, _.
  split_and!; [ exact Hrun1 | | exact Hload1 | exact Hrun2
              | by apply loadJobs_written ].
  subst w1. unfold withOut. cbn [stdout withFile]. by rewrite <- app_assoc.
Qed.

Lemma add_id_usable_witness :
  exists w1 w2 newJob line,
    run env0 [js "add"; js "Initech"; js "Tester"] (storeOf [globex])
    = (Some 0%Z, w1)
    /\ stdout w1 = stdout (storeOf [globex]) ++ [line; js "   id: " ++ id newJob]
    /\ loadJobs w1 = (inl [newJob; globex], w1)
    /\ run env0 [js "update"; id newJob; js "applied"] w1 = (Some 0%Z, w2)
    /\ loadJobs w2 = (inl [setStatus applied newJob; globex], w2).
Proof.
  apply (add_id_usable env0 env0 (js "Initech") (js "Tester") [] (js "applied")
           applied [] (storeOf [globex]) [globex]).
  - vm_compute. reflexivity.
  - vm_compute. discriminate.
  - vm_compute. discriminate.
  - vm_compute. reflexivity.
Defined.

(** X6.  When no stored entry has the id that [add] generates, removing
    the new entry by that id gives back the collection as it was before
    the add. *)
Theorem add_then_remove_restores env env' company role rest rest' w jobs :
  loadJobs w = (inl jobs, w) ->
  trim company <> [] -> trim role <> [] ->
  makeId env ∉ map id jobs ->
  exists w1 w2,
    run env (js "add" :: company :: role :: rest) w = (Some 0%Z, w1)
    /\ run env' (js "remove" :: makeId env :: rest') w1 = (Some 0%Z, w2)
    /\ loadJobs w2 = (inl jobs, w2).
Proof.
  intros Hload Hc Hr Hfresh.
  pose proof (add_created env w jobs Hload company role rest Hc Hr) as Hrun1.
  cbv zeta in Hrun1. set (w1 := withOut _ _) in Hrun1.
  set (newJob := added env company role rest) in *.
  assert (loadJobs w1 = (inl (newJob :: jobs), w1)) as Hload1
    by (by apply loadJobs_written).
  assert (filter (fun j => id j <> makeId env) (newJob :: jobs) = jobs) as Hkept.
  { rewrite filter_cons_False by (intros H; by apply H).
    by apply filter_absent. }
  pose proof (remove_found env' w1 _ Hload1 (makeId env) rest'
                (makeId_not_blank env)) as Hrun2.
  rewrite Hkept in Hrun2. specialize (Hrun2 ltac:(cbn [length]; lia)).
  eexists w1, _.
  split_and!; [ exact Hrun1 | exact Hrun2 | by apply loadJobs_written ].
Qed.

Lemma add_then_remove_restores_witness :
  exists w1 w2,
    run env0 [js "add"; js "Initech"; js "Tester"; js "via"; js "friend"]
        (storeOf [globex]) = (Some 0%Z, w1)
    /\ run env0 [js "remove"; makeId env0] w1 = (Some 0%Z, w2)
    /\ loadJobs w2 = (inl [globex], w2).
Proof.
  apply (add_then_remove_restores env0 env0 (js "Initech") (js "Tester")
           [js "via"; js "friend"] [] (storeOf [globex]) [globex]).
  - vm_compute. reflexivity.
  - vm_compute. discriminate.
  - vm_compute. discriminate.
  - refine (bool_decide_eq_false_1 _ _). vm_compute. reflexivity.
Defined.

(** X7.  After [remove X], whether it succeeded or not, a second
    [remove X] with a non-blank [X] always fails: it reports that no job
    has the id, exits with status 1 and leaves the collection alone. *)
Theorem remove_twice_fails env env' X rest rest' w jobs :
  loadJobs w = (inl jobs, w) ->
  trim X <> [] ->
  exists code w1 w2 jobs1,
    run env (js "remove" :: X :: rest) w = (code, w1)
    /\ loadJobs w1 = (inl jobs1, w1)
    /\ run env' (js "remove" :: X :: rest') w1 = (Some 1%Z, w2)
    /\ stderr w2 = stderr w1 ++ [js "No job found with id: " ++ X]
    /\ file w2 = file w1
    /\ loadJobs w2 = (inl jobs1, w2).
Proof.
  intros Hload HX.
  assert (forall w1 jobs1, loadJobs w1 = (inl jobs1, w1) -> X ∉ map id jobs1 ->
            exists w2,
              run env' (js "remove" :: X :: rest') w1 = (Some 1%Z, w2)
              /\ stderr w2 = stderr w1 ++ [js "No job found with id: " ++ X]
              /\ file w2 = file w1
              /\ loadJobs w2 = (inl jobs1, w2)) as Hsecond.
  { intros w1 jobs1 Hload1 Hout.
    rewrite (remove_not_found env' w1 jobs1 Hload1) by
      (done || (by rewrite filter_length_eq, <- absent_filter)).
    eexists. split_and!; [ done .. | ]. by apply (loadJobs_same_file w1). }
  destruct (decide (X ∈ map id jobs)) as [ Hin | Hout ].
  - pose proof (remove_found env w jobs Hload X rest HX) as Hrun1.
    specialize (Hrun1 ltac:(rewrite filter_length_eq, <- absent_filter; tauto)).
    set (w1 := withOut _ _) in Hrun1.
    assert (loadJobs w1 = (inl (filter (fun j => id j <> X) jobs), w1)) as Hload1
      by (by apply loadJobs_written).
    destruct (Hsecond w1 _ Hload1 (filter_removes X jobs)) as (w2 & H2).
    by exists (Some 0%Z), w1, w2, (filter (fun j => id j <> X) jobs).
  - pose proof (remove_not_found env w jobs Hload X rest HX) as Hrun1.
    specialize (Hrun1 ltac:(by rewrite filter_length_eq, <- absent_filter)).
    set (w1 := withErr _ _) in Hrun1.
    assert (loadJobs w1 = (inl jobs, w1)) as Hload1
      by (by apply (loadJobs_same_file w)).
    destruct (Hsecond w1 _ Hload1 Hout) as (w2 & H2).
    by exists (Some 1%Z), w1, w2, jobs.
Qed.

Lemma remove_twice_fails_witness :
  exists code w1 w2 jobs1,
    run env0 [js "remove"; js "1700000000555-9f3e"] (storeOf [globex; acme])
    = (code, w1)
    /\ loadJobs w1 = (inl jobs1, w1)
    /\ run env0 [js "remove"; js "1700000000555-9f3e"] w1 = (Some 1%Z, w2)
    /\ stderr w2 = stderr w1 ++ [js "No job found with id: "
                                 ++ js "1700000000555-9f3e"]
    /\ file w2 = file w1
    /\ loadJobs w2 = (inl jobs1, w2).
Proof.
  apply (remove_twice_fails env0 env0 (js "1700000000555-9f3e") [] []
           (storeOf [globex; acme]) [globex; acme]).
  - vm_compute. reflexivity.
  - vm_compute. discriminate.
Defined.

(** X8.  Of two successive updates of the same id the later one wins:
    the store after [update X s1] and then [update X s2] holds the same
    collection as after [update X s2] alone, and the second update exits
    with the same status either way. *)
Theorem update_last_wins env1 env2 X s1 st1 s2 st2 rest1 rest2 w jobs :
  loadJobs w = (inl jobs, w) ->
  isStatus s1 = Some st1 ->
  isStatus s2 = Some st2 ->
  exists code1 w1 code2 w2 code3 w3 jobs',
    run env1 (js "update" :: X :: s1 :: rest1) w = (code1, w1)
    /\ run env2 (js "update" :: X :: s2 :: rest2) w1 = (code2, w2)
    /\ run env2 (js "update" :: X :: s2 :: rest2) w = (code3, w3)
    /\ loadJobs w2 = (inl jobs', w2)
    /\ loadJobs w3 = (inl jobs', w3)
    /\ code2 = code3.
Proof.
  intros Hload Hst1 Hst2.
  destruct (decide (trim X = [])) as [ Hblank | Hblank ].
  { pose proof (update_blank_id env1 w jobs Hload X (s1 :: rest1) Hblank) as H1.
    set (w1 := withErr _ _) in H1.
    assert (loadJobs w1 = (inl jobs, w1)) as Hload1
      by (by apply (loadJobs_same_file w)).
    pose proof (update_blank_id env2 w1 jobs Hload1 X (s2 :: rest2) Hblank) as H2.
    pose proof (update_blank_id env2 w jobs Hload X (s2 :: rest2) Hblank) as H3.
    eexists _, _, _, _, _, _, jobs.
    split_and!; [ exact H1 | exact H2 | exact H3 | | | done ];
      by apply (loadJobs_same_file w). }
  destruct (findIndex (fun j => bool_decide (id j = X)) jobs) as [ idx | ] eqn:Hidx.
  - pose proof (update_found env1 w jobs Hload X s1 st1 rest1 idx Hblank Hst1 Hidx)
      as H1.
    set (w1 := withOut _ _) in H1.
    assert (loadJobs w1 = (inl (alter (setStatus st1) idx jobs), w1)) as Hload1
      by (by apply loadJobs_written).
    assert (findIndex (fun j => bool_decide (id j = X))
              (alter (setStatus st1) idx jobs) = Some idx) as Hidx1
      by (by rewrite Claims.findIndex_alter).
    pose proof (update_found env2 w1 _ Hload1 X s2 st2 rest2 idx Hblank Hst2 Hidx1)
      as H2.
    pose proof (update_found env2 w jobs Hload X s2 st2 rest2 idx Hblank Hst2 Hidx)
      as H3.
    eexists _, _, _, _, _, _, (alter (setStatus st2) idx jobs).
    split_and!; [ exact H1 | exact H2 | exact H3 | | | done ];
      apply loadJobs_written; cbn [file withOut withFile];
      by rewrite ?alter_setStatus_over.
  - pose proof (update_not_found env1 w jobs Hload X s1 st1 rest1 Hblank Hst1 Hidx)
      as H1.
    set (w1 := withErr _ _) in H1.
    assert (loadJobs w1 = (inl jobs, w1)) as Hload1
      by (by apply (loadJobs_same_file w)).
    pose proof (update_not_found env2 w1 jobs Hload1 X s2 st2 rest2 Hblank Hst2 Hidx)
      as H2.
    pose proof (update_not_found env2 w jobs Hload X s2 st2 rest2 Hblank Hst2 Hidx)
      as H3.
    eexists _, _, _, _, _, _, jobs.
    split_and!; [ exact H1 | exact H2 | exact H3 | | | done ];
      by apply (loadJobs_same_file w).
Qed.

Lemma update_last_wins_witness :
  exists code1 w1 code2 w2 code3 w3 jobs',
    run env0 [js "update"; js "1700000000000-ab12cd"; js "applied"]
        (storeOf [globex; acme]) = (code1, w1)
    /\ run env0 [js "update"; js "1700000000000-ab12cd"; js "rejected"] w1
       = (code2, w2)
    /\ run env0 [js "update"; js "1700000000000-ab12cd"; js "rejected"]
           (storeOf [globex; acme]) = (code3, w3)
    /\ loadJobs w2 = (inl jobs', w2)
    /\ loadJobs w3 = (inl jobs', w3)
    /\ code2 = code3.
Proof.
  apply (update_last_wins env0 env0 (js "1700000000000-ab12cd") (js "applied")
           applied (js "rejected") rejected [] [] (storeOf [globex; acme])
           [globex; acme]); vm_compute; reflexivity.
Defined.

(** X9.  The store is parsed before the command is looked at: when
    [jobs.json] exists and is not valid JSON, every invocation, [help]
    and unknown commands included, stops with the uncaught exception of
    [JSON.parse] (exit status 1) before it prints anything through the
    console, and the file is left as it is. *)
Theorem corrupt_store_stops_everything env argv w raw :
  file w = Some raw ->
  JSON_parse raw = None ->
  main env argv w = (inr (Uncaught SyntaxError), w)
  /\ run env argv w = (Some 1%Z, w).
Proof.
  intros Hfile Hparse. split; [ | by eapply corrupt_run ].
  unfold main. unfold bind at 1.
  rewrite loadJobs_eq, Hfile. unfold stored. by rewrite Hparse.
Qed.

Lemma corrupt_store_stops_everything_witness :
  main env0 [js "help"]
       {| file := Some (js "[{oops"); stdout := []; stderr := [] |}
  = (inr (Uncaught SyntaxError),
     {| file := Some (js "[{oops"); stdout := []; stderr := [] |})
  /\ run env0 [js "help"]
         {| file := Some (js "[{oops"); stdout := []; stderr := [] |}
     = (Some 1%Z, {| file := Some (js "[{oops"); stdout := []; stderr := [] |}).
Proof.
  apply (corrupt_store_stops_everything env0 [js "help"]
           {| file := Some (js "[{oops"); stdout := []; stderr := [] |}
           (js "[{oops")); [ reflexivity | vm_compute; reflexivity ].
Defined.

(** X10.  [list] is read-only and repeatable.  It exits with status 0,
    leaves the file and standard error alone, and prints the no-jobs
    line for an empty collection, otherwise a header and then, for each
    entry in collection order, its company and role, id, status and
    creation time, its notes when they are set and not empty, and an
    empty line: 1 line, or 1 + 5 per entry + 1 per entry with notes.  A
    second [list] prints the same lines again. *)
Theorem list_read_only_repeatable env args args' w jobs :
  loadJobs w = (inl jobs, w) ->
  exists w1 w2,
    run env (js "list" :: args) w = (Some 0%Z, w1)
    /\ run env (js "list" :: args') w1 = (Some 0%Z, w2)
    /\ stdout w1 = stdout w ++ listing env jobs
    /\ stdout w2 = stdout w1 ++ listing env jobs
    /\ file w2 = file w /\ stderr w2 = stderr w
    /\ loadJobs w2 = (inl jobs, w2)
    /\ length (listing env jobs)
       = match jobs with
         | [] => 1%nat
         | _ :: _ =>
             (1 + list_sum (map (fun j => match notes j with
                                          | Some (_ :: _) => 6
                                          | _ => 5
                                          end) jobs))%nat
         end.
Proof.
  intros Hload.
  pose proof (list_run env w jobs Hload args) as H1.
  set (w1 := withLines _ _) in H1.
  assert (loadJobs w1 = (inl jobs, w1)) as Hload1
    by (by apply (loadJobs_same_file w)).
  pose proof (list_run env w1 jobs Hload1 args') as H2.
  eexists w1, _.
  split_and!; [ exact H1 | exact H2 | done | done | done | done
              | by apply (loadJobs_same_file w) | ].
  destruct jobs as [ | j0 js0 ]; [ done | ].
  unfold listing. cbn [length]. f_equal.
  generalize (j0 :: js0). clear. intros l.
  induction l as [ | j l IH ]; [ done | ].
  cbn [map concat list_sum fold_right]. rewrite length_app, IH. f_equal.
  unfold entryLines. by destruct (notes j) as [ [ | c n ] | ].
Qed.

Lemma list_read_only_repeatable_witness :
  exists w1 w2,
    run env0 [js "list"] (storeOf [globex; acme]) = (Some 0%Z, w1)
    /\ run env0 [js "list"] w1 = (Some 0%Z, w2)
    /\ stdout w1 = stdout (storeOf [globex; acme]) ++ listing env0 [globex; acme]
    /\ stdout w2 = stdout w1 ++ listing env0 [globex; acme]
    /\ file w2 = file (storeOf [globex; acme])
    /\ stderr w2 = stderr (storeOf [globex; acme])
    /\ loadJobs w2 = (inl [globex; acme], w2)
    /\ length (listing env0 [globex; acme])
       = match [globex; acme] with
         | [] => 1%nat
         | _ :: _ =>
             (1 + list_sum (map (fun j => match notes j with
                                          | Some (_ :: _) => 6
                                          | _ => 5
                                          end) [globex; acme]))%nat
         end.
Proof.
  apply (list_read_only_repeatable env0 [] [] (storeOf [globex; acme])
           [globex; acme]).
  vm_compute. reflexivity.
Defined.

(** X11.  The status is checked before the id is looked up: [update X s]
    with [s] not one of the five words reports the invalid status on
    standard error, prints the help, exits with status 1 and writes
    nothing, whether or not an entry has id [X]. *)
Theorem invalid_status_before_lookup env X s rest w jobs :
  loadJobs w = (inl jobs, w) ->
  trim X <> [] -> trim s <> [] ->
  isStatus s = None ->
  exists w',
    run env (js "update" :: X :: s :: rest) w = (Some 1%Z, w')
    /\ stderr w' = stderr w ++ [js "Invalid status: " ++ s]
    /\ stdout w' = stdout w ++ [helpText]
    /\ file w' = file w
    /\ loadJobs w' = (inl jobs, w').
Proof.
  intros Hload HX Hs Hst.
  rewrite (update_invalid_status env w jobs Hload) by done.
  eexists. split_and!; [ done .. | ]. by apply (loadJobs_same_file w).
Qed.

Lemma invalid_status_before_lookup_witness :
  exists w',
    run env0 [js "update"; js "no-such-id"; js "Applied"] (storeOf [acme])
    = (Some 1%Z, w')
    /\ stderr w' = stderr (storeOf [acme]) ++ [js "Invalid status: " ++ js "Applied"]
    /\ stdout w' = stdout (storeOf [acme]) ++ [helpText]
    /\ file w' = file (storeOf [acme])
    /\ loadJobs w' = (inl [acme], w').
Proof.
  apply (invalid_status_before_lookup env0 (js "no-such-id") (js "Applied") []
           (storeOf [acme]) [acme]).
  - vm_compute. reflexivity.
  - vm_compute. discriminate.
  - vm_compute. discriminate.
  - vm_compute. reflexivity.
Defined.

(** X12.  When a required argument of [add], [update] or [remove] is
    absent or blank, the run names the first such argument (company
    before role, id before status) in one line on standard error, exits
    with status 1, prints nothing on standard output and writes
    nothing. *)
Theorem missing_argument_rejected env command args name w jobs :
  loadJobs w = (inl jobs, w) ->
  firstMissing command args = Some name ->
  exists w',
    run env (command :: args) w = (Some 1%Z, w')
    /\ stderr w' = stderr w ++ [js "Missing required argument: " ++ name]
    /\ stdout w' = stdout w
    /\ file w' = file w
    /\ loadJobs w' = (inl jobs, w').
Proof.
  intros Hload Hmiss.
  rewrite (missing_run env w jobs Hload command args name Hmiss).
  eexists. split_and!; [ done .. | ]. by apply (loadJobs_same_file w).
Qed.

Lemma missing_argument_rejected_witness :
  exists w',
    run env0 [js "update"; js "1700000000000-ab12cd"] (storeOf [acme])
    = (Some 1%Z, w')
    /\ stderr w' = stderr (storeOf [acme])
                   ++ [js "Missing required argument: " ++ js "status"]
    /\ stdout w' = stdout (storeOf [acme])
    /\ file w' = file (storeOf [acme])
    /\ loadJobs w' = (inl [acme], w').
Proof.
  apply (missing_argument_rejected env0 (js "update")
           [js "1700000000000-ab12cd"] (js "status") (storeOf [acme]) [acme]).
  - vm_compute. reflexivity.
  - vm_compute. reflexivity.
Defined.

(** X13.  On a store that loads, the exit status is 0 or 1.  A run that
    exits with status 1 has written nothing to the file and exactly one
    line to standard error.  A run that exits with status 0 has left
    standard error alone, except for an unknown command, which is
    reported there and still exits with status 0. *)
Theorem failures_are_clean env argv w jobs :
  loadJobs w = (inl jobs, w) ->
  exists code w',
    run env argv w = (code, w')
    /\ (code = Some 0%Z \/ code = Some 1%Z)
    /\ (code = Some 1%Z ->
        file w' = file w /\ exists line, stderr w' = stderr w ++ [line])
    /\ (code = Some 0%Z ->
        stderr w' = stderr w
        \/ exists command,
             argv !! 0%nat = Some command
             /\ (command ∉ [js "add"; js "list"; js "update"; js "remove";
                            js "help"])
             /\ stderr w' = stderr w ++ [js "Unknown command: " ++ command]
             /\ file w' = file w).
Proof.
  intros Hload. pose proof (run_outcome env argv w jobs Hload) as Hout.
  destruct (run env argv w) as [code w']. exists code, w'.
  split; [ done | ].
  inversion Hout; subst;
    (split_and!;
     [ first [ by left | by right ]
     | first [ done | intros _; split; [ done | by eexists ] ]
     | first [ done | intros _; by left | idtac ] ]).
  intros _. right. by eexists.
Qed.

Lemma failures_are_clean_witness :
  exists code w',
    run env0 [js "remove"; js "no-such-id"] (storeOf [acme]) = (code, w')
    /\ (code = Some 0%Z \/ code = Some 1%Z)
    /\ (code = Some 1%Z ->
        file w' = file (storeOf [acme])
        /\ exists line, stderr w' = stderr (storeOf [acme]) ++ [line])
    /\ (code = Some 0%Z ->
        stderr w' = stderr (storeOf [acme])
        \/ exists command,
             [js "remove"; js "no-such-id"] !! 0%nat = Some command
             /\ (command ∉ [js "add"; js "list"; js "update"; js "remove";
                            js "help"])
             /\ stderr w' = stderr (storeOf [acme])
                            ++ [js "Unknown command: " ++ command]
             /\ file w' = file (storeOf [acme])).
Proof.
  apply (failures_are_clean env0 [js "remove"; js "no-such-id"] (storeOf [acme])
           [acme]).
  vm_compute. reflexivity.
Defined.

(** X14.  The program never leaves a store that it cannot read back:
    from a store that loads, after any sequence of invocations the store
    loads again, and a file that was rewritten is well-formed UTF-16
    text. *)
Theorem store_stays_loadable calls w jobs :
  loadJobs w = (inl jobs, w) ->
  exists jobs',
    loadJobs (session calls w) = (inl jobs', session calls w)
    /\ (file (session calls w) = file w
        \/ exists text, file (session calls w) = Some text
                        /\ wellFormed text = true).
Proof.
  revert w jobs. induction calls as [ | [env argv] calls IH ]; intros w jobs Hload.
  - exists jobs. split; [ done | by left ].
  - cbn [session].
    destruct (step_collection env argv w jobs Hload)
      as (jobs1 & Hload1 & Hfile1 & _).
    destruct (IH _ _ Hload1) as (jobs' & Hload' & Hfile').
    exists jobs'. split; [ done | ].
    destruct Hfile' as [ Hsame | Htext ]; [ | by right ].
    rewrite Hsame. destruct Hfile1 as [ Hsame1 | Hwritten ]; [ by left | ].
    right. eexists. split; [ done | apply wellFormed_jobs ].
Qed.

Lemma store_stays_loadable_witness :
  exists jobs',
    loadJobs (session [ (env0, [js "add"; js "Acme"; js "Engineer"]);
                        (env0, [js "oops"]);
                        (env0, [js "update"; makeId env0; js "offer"]) ] fresh)
    = (inl jobs',
       session [ (env0, [js "add"; js "Acme"; js "Engineer"]);
                 (env0, [js "oops"]);
                 (env0, [js "update"; makeId env0; js "offer"]) ] fresh)
    /\ (file (session [ (env0, [js "add"; js "Acme"; js "Engineer"]);
                        (env0, [js "oops"]);
                        (env0, [js "update"; makeId env0; js "offer"]) ] fresh)
        = file fresh
        \/ exists text,
             file (session [ (env0, [js "add"; js "Acme"; js "Engineer"]);
                             (env0, [js "oops"]);
                             (env0, [js "update"; makeId env0; js "offer"]) ]
                           fresh) = Some text
             /\ wellFormed text = true).
Proof.
  apply (store_stays_loadable
           [ (env0, [js "add"; js "Acme"; js "Engineer"]);
             (env0, [js "oops"]);
             (env0, [js "update"; makeId env0; js "offer"]) ] fresh []).
  reflexivity.
Defined.

(** X15.  Blank ids cannot arise: when no stored entry has a blank id,
    none has after any sequence of invocations.  In particular every
    store built from an absent file has entries that [update] and
    [remove] can name. *)
Theorem ids_stay_non_blank calls w jobs :
  loadJobs w = (inl jobs, w) ->
  Forall (fun j => trim (id j) <> []) jobs ->
  exists jobs',
    loadJobs (session calls w) = (inl jobs', session calls w)
    /\ Forall (fun j => trim (id j) <> []) jobs'.
Proof.
  revert w jobs. induction calls as [ | [env argv] calls IH ];
    intros w jobs Hload Hsolid.
  - by exists jobs.
  - cbn [session].
    destruct (step_solid_ids env argv w jobs Hload Hsolid)
      as (jobs1 & Hload1 & Hsolid1).
    by apply (IH _ jobs1).
Qed.

Lemma ids_stay_non_blank_witness :
  exists jobs',
    loadJobs (session [ (env0, [js "add"; js "Acme"; js "Engineer"]);
                        (env0, [js "remove"; js " "]) ] fresh)
    = (inl jobs',
       session [ (env0, [js "add"; js "Acme"; js "Engineer"]);
                 (env0, [js "remove"; js " "]) ] fresh)
    /\ Forall (fun j => trim (id j) <> []) jobs'.
Proof.
  apply (ids_stay_non_blank
           [ (env0, [js "add"; js "Acme"; js "Engineer"]);
             (env0, [js "remove"; js " "]) ] fresh []).
  - reflexivity.
  - constructor.
Defined.

(** X16.  One invocation keeps the ids distinct, provided the id that
    [add] would generate is not in the store already: [update] keeps all
    ids, [remove] deletes entries, and [add] brings the generated id
    only. *)
Theorem ids_stay_distinct env argv w jobs :
  loadJobs w = (inl jobs, w) ->
  NoDup (map id jobs) ->
  makeId env ∉ map id jobs ->
  exists code w' jobs',
    run env argv w = (code, w')
    /\ loadJobs w' = (inl jobs', w')
    /\ NoDup (map id jobs').
Proof.
  intros Hload Hdistinct Hfresh.
  destruct (step_collection env argv w jobs Hload)
    as (jobs' & Hload' & _ & Hkind).
  destruct (run env argv w) as [code w']. cbn [snd] in Hload'.
  exists code, w', jobs'. split_and!; [ done | done | ].
  destruct Hkind as [ -> | [ (c & r & rest & ->) | [ (st & idx & ->) | (X & ->) ] ] ].
  - done.
  - cbn [map]. by constructor.
  - by rewrite alter_ids.
  - by apply filter_ids_NoDup.
Qed.

Lemma ids_stay_distinct_witness :
  exists code w' jobs',
    run {| Date_now := 1700000000777; Math_random_hex := js "0.5c01";
           Date_toISOString := js "2023-11-14T22:13:20.777Z";
           toLocaleString := fun s => s |}
        [js "add"; js "Initech"; js "Tester"] (storeOf [globex; acme])
    = (code, w')
    /\ loadJobs w' = (inl jobs', w')
    /\ NoDup (map id jobs').
Proof.
  apply (ids_stay_distinct
           {| Date_now := 1700000000777; Math_random_hex := js "0.5c01";
              Date_toISOString := js "2023-11-14T22:13:20.777Z";
              toLocaleString := fun s => s |}
           [js "add"; js "Initech"; js "Tester"]
           (storeOf [globex; acme]) [globex; acme]).
  - vm_compute. reflexivity.
  - refine (bool_decide_eq_true_1 _ _). vm_compute. reflexivity.
  - refine (bool_decide_eq_false_1 _ _). vm_compute. reflexivity.
Defined.

(** X17.  With no command, with the empty string as command and with
    [help], a run on a store that loads prints the help text once, exits
    with status 0 and touches neither the file nor standard error. *)
Theorem help_when_no_command env argv w jobs :
  loadJobs w = (inl jobs, w) ->
  argv !! 0%nat = None \/ argv !! 0%nat = Some []
  \/ argv !! 0%nat = Some (js "help") ->
  exists w',
    run env argv w = (Some 0%Z, w')
    /\ stdout w' = stdout w ++ [helpText]
    /\ stderr w' = stderr w
    /\ file w' = file w.
Proof.
  intros Hload Hcommand. rewrite (help_run env w jobs Hload argv Hcommand).
  eexists. by split_and!.
Qed.

Lemma help_when_no_command_witness :
  exists w',
    run env0 [ []; js "add"; js "Acme"; js "Engineer" ] (storeOf [acme])
    = (Some 0%Z, w')
    /\ stdout w' = stdout (storeOf [acme]) ++ [helpText]
    /\ stderr w' = stderr (storeOf [acme])
    /\ file w' = file (storeOf [acme]).
Proof.
  apply (help_when_no_command env0 [ []; js "add"; js "Acme"; js "Engineer" ]
           (storeOf [acme]) [acme]).
  - vm_compute. reflexivity.
  - right. left. reflexivity.
Defined.

(** X18.  The newest entry is listed first: after a successful [add],
    [list] prints a header with the new count, then the lines of the new
    entry, then the lines of the older entries in their former order. *)
Theorem added_entry_listed_first env env' company role rest args w jobs :
  loadJobs w = (inl jobs, w) ->
  trim company <> [] -> trim role <> [] ->
  exists w1 w2 newJob,
    run env (js "add" :: company :: role :: rest) w = (Some 0%Z, w1)
    /\ company = Model.company newJob /\ role = Model.role newJob
    /\ run env' (js "list" :: args) w1 = (Some 0%Z, w2)
    /\ stdout w2
       = stdout w1
         ++ ([10; 55357; 56524] ++ js " Job Applications ("
             ++ decimal (N.of_nat (S (length jobs))) ++ js ")" ++ [10])
         :: entryLines env' newJob
         ++ concat (map (entryLines env') jobs).
Proof.
  intros Hload Hc Hr.
  pose proof (add_created env w jobs Hload company role rest Hc Hr) as Hrun1.
  cbv zeta in Hrun1. set (w1 := withOut _ _) in Hrun1.
  set (newJob := added env company role rest) in *.
  assert (loadJobs w1 = (inl (newJob :: jobs), w1)) as Hload1
    by (by apply loadJobs_written).
  pose proof (list_run env' w1 _ Hload1 args) as Hrun2.
  by exists w1, (withLines (listing env' (newJob :: jobs)) w1), newJob.
Qed.

Lemma added_entry_listed_first_witness :
  exists w1 w2 newJob,
    run env0 [js "add"; js "Initech"; js "Tester"] (storeOf [globex])
    = (Some 0%Z, w1)
    /\ js "Initech" = Model.company newJob /\ js "Tester" = Model.role newJob
    /\ run env0 [js "list"] w1 = (Some 0%Z, w2)
    /\ stdout w2
       = stdout w1
         ++ ([10; 55357; 56524] ++ js " Job Applications ("
             ++ decimal (N.of_nat (S (length [globex]))) ++ js ")" ++ [10])
         :: entryLines env0 newJob
         ++ concat (map (entryLines env0) [globex]).
Proof.
  apply (added_entry_listed_first env0 env0 (js "Initech") (js "Tester") [] []
           (storeOf [globex]) [globex]).
  - vm_compute. reflexivity.
  - vm_compute. discriminate.
  - vm_compute. discriminate.
Defined.



(** X20.  Only a successful [add] creates the file: on a missing file
    every other invocation, and an [add] without company or role, leaves
    it missing. *)
Theorem only_add_creates_file env argv w :
  file w = None ->
  file (snd (run env argv w)) = None
  \/ exists company role rest,
       argv = js "add" :: company :: role :: rest
       /\ trim company <> [] /\ trim role <> []
       /\ loadJobs (snd (run env argv w))
          = (inl [added env company role rest], snd (run env argv w)).
Proof.
  intros Hfile. pose proof (loadJobs_absent w Hfile) as Hload.
  pose proof (run_outcome env argv w [] Hload) as Hout.
  destruct (run env argv w) as [code w']. cbn [snd].
  inversion Hout; subst; try (by left).
  - right. eexists _, _, _.
    split_and!; [ done .. | ]. by apply loadJobs_written.
  - match goal with H : _ ∈ map id [] |- _ => by apply elem_of_nil in H end.
Qed.

Lemma only_add_creates_file_witness :
  file (snd (run env0 [js "update"; js "1700000000000-ab12cd"; js "offer"]
                 fresh)) = None
  \/ exists company role rest,
       [js "update"; js "1700000000000-ab12cd"; js "offer"]
       = js "add" :: company :: role :: rest
       /\ trim company <> [] /\ trim role <> []
       /\ loadJobs (snd (run env0 [js "update"; js "1700000000000-ab12cd";
                                   js "offer"] fresh))
          = (inl [added env0 company role rest],
             snd (run env0 [js "update"; js "1700000000000-ab12cd"; js "offer"]
                      fresh)).
Proof.
  apply (only_add_creates_file env0
           [js "update"; js "1700000000000-ab12cd"; js "offer"] fresh).
  reflexivity.
Defined.

End Extras.
